(** * Async job system: the worker loop of [src/worker.js] and the producer
      of [src/routes/jobs.js], embedded as state-passing functions.

    The PostgreSQL table [jobs] is a finite map from job id to record, the
    two Redis lists [job_queue] and [job_dlq] are lists of ids, the output
    directory is a finite map from path to file content, and the structured
    log is the list of events written so far.

    Modelling assumptions, stated once:
    - the store and the broker are reachable and accept every statement
      (connection errors, the loop-level [catch] and its one second pause
      are outside the model);
    - the output directory exists and is writable;
    - one worker process runs the loop; the body of an iteration is one
      step of the model (the flag [shuttingDown] is not read inside it),
      and so is a request to the producer: the states spoken of are those
      between iterations and between requests;
    - a request that reaches the INSERT names a type of at most 50
      characters and carries a JSON object as payload, or none; a record
      holds the payload as the worker reads it back from the store;
    - JSON numbers are integers that a double holds exactly, and strings
      hold one character per code unit; an object lists its own keys once
      each, in enumeration order; properties inherited from a prototype
      ([constructor], [valueOf] ...) are not modelled: a key that names one
      reads as [undefined] unless the JSON value has it as an own key.
      Whether a statement throws does not depend on them; the text of a
      CSV cell read under such a key does. *)

From stdpp Require Import gmap strings list fin_maps pretty.
From Stdlib Require Import ZArith Lia.

Local Open Scope string_scope.
Local Open Scope Z_scope.
Local Open Scope list_scope.
Set Warnings "-register-all".

(** ** JSON values and the JavaScript operations the worker applies to them *)

Inductive json : Type :=
| JNull
| JBool (b : bool)
| JNum (n : Z)
| JStr (s : string)
| JArr (items : list json)
| JObj (fields : list (string * json)).

(** Outcome of an expression that may throw; [Throw m] carries [err.message]. *)
Inductive Res (A : Type) : Type :=
| Ok (a : A)
| Throw (message : string).
Arguments Ok {A} a.
Arguments Throw {A} message.

Definition res_bind {A B} (r : Res A) (k : A → Res B) : Res B :=
  match r with
  | Ok a => k a
  | Throw m => Throw m
  end.

Fixpoint assoc (k : string) (kv : list (string * json)) : option json :=
  match kv with
  | [] => None
  | (k', v) :: rest => if decide (k = k') then Some v else assoc k rest
  end.

(** The line terminator the CSV handler appends. *)
Definition newline : string := String (Ascii.ascii_of_nat 10) EmptyString.

(** Index keys ["0"; "1"; ...] paired with the elements. *)
Definition indexed (start : nat) (l : list json) : list (string * json) :=
  imap (λ i v, (pretty (start + i)%nat, v)) l.

Fixpoint chars (s : string) : list json :=
  match s with
  | EmptyString => []
  | String c rest => JStr (String c EmptyString) :: chars rest
  end.

(** [v[k]] over own properties, [length] of arrays and strings included:
    [None] is [undefined]; reading a property of [null] throws (the message
    is V8's, the engine of the image the worker runs in). *)
Definition get_prop (v : json) (k : string) : Res (option json) :=
  match v with
  | JNull => Throw ("Cannot read properties of null (reading '" +:+ k +:+ "')")
  | JObj kv => Ok (assoc k kv)
  | JArr l => Ok (assoc k (("length", JNum (Z.of_nat (length l))) :: indexed 0 l))
  | JStr s =>
      Ok (assoc k (("length", JNum (Z.of_nat (String.length s))) :: indexed 0 (chars s)))
  | JBool _ | JNum _ => Ok None
  end.

(** [v?.k]: optional chaining, [undefined] on [null]. *)
Definition get_prop_opt (v : json) (k : string) : option json :=
  match get_prop v k with
  | Ok r => r
  | Throw _ => None
  end.

(** [Object.keys(v)]. *)
Definition Object_keys (v : json) : Res (list string) :=
  match v with
  | JNull => Throw "Cannot convert undefined or null to object"
  | JObj kv => Ok (map fst kv)
  | JArr l => Ok (map fst (indexed 0 l))
  | JStr s => Ok (map fst (indexed 0 (chars s)))
  | JBool _ | JNum _ => Ok []
  end.

(** [String(v)] as [Array.prototype.join] applies it to an element. An
    array converts through its own [join]. An object converts through
    [Object.prototype.toString] unless it has an own key [toString]: the
    value of that key is JSON, never a function, and [valueOf] returns the
    object, so the conversion throws a TypeError. *)
Fixpoint js_ToString (v : json) : Res string :=
  match v with
  | JNull => Ok "null"
  | JBool true => Ok "true"
  | JBool false => Ok "false"
  | JNum n => Ok (pretty n)
  | JStr s => Ok s
  | JArr l =>
      res_bind
        ((fix items (l : list json) : Res (list string) :=
            match l with
            | [] => Ok []
            | x :: rest =>
                res_bind (match x with JNull => Ok "" | _ => js_ToString x end) (λ t,
                res_bind (items rest) (λ ts, Ok (t :: ts)))
            end) l)
        (λ ts, Ok (String.concat "," ts))
  | JObj kv =>
      match assoc "toString" kv with
      | Some _ => Throw "Cannot convert object to primitive value"
      | None => Ok "[object Object]"
      end
  end.

(** The text [join] gives one cell: empty for [undefined] and [null]. *)
Definition cell_text (c : option json) : Res string :=
  match c with
  | None | Some JNull => Ok ""
  | Some v => js_ToString v
  end.

(** [cells.join(",")] where a cell is [undefined], [null] or a value; the
    cells are converted from left to right. *)
Fixpoint cell_texts (cells : list (option json)) : Res (list string) :=
  match cells with
  | [] => Ok []
  | c :: rest =>
      res_bind (cell_text c) (λ t,
      res_bind (cell_texts rest) (λ ts, Ok (t :: ts)))
  end.

Definition join_cells (cells : list (option json)) : Res string :=
  res_bind (cell_texts cells) (λ ts, Ok (String.concat "," ts)).

(** [headers.map(h => row[h])]: the callback runs once per header, so a
    [null] row throws only when there is a header. *)
Fixpoint map_row (row : json) (headers : list string) : Res (list (option json)) :=
  match headers with
  | [] => Ok []
  | h :: hs =>
      res_bind (get_prop row h) (λ c,
      res_bind (map_row row hs) (λ cs, Ok (c :: cs)))
  end.

(** The [for (const row of rows)] loop of the CSV handler, appending one
    line per row to [csv]. *)
Fixpoint csv_rows (headers : list string) (rows : list json) (csv : string)
  : Res string :=
  match rows with
  | [] => Ok csv
  | row :: rest =>
      res_bind (map_row row headers) (λ cells,
      res_bind (join_cells cells) (λ line,
      csv_rows headers rest (csv +:+ line +:+ newline)))
  end.

(** Lines 100-105 of worker.js: header line, then one line per row. *)
Definition build_csv (rows : list json) : Res string :=
  match rows with
  | [] => Ok ""
  | row0 :: _ =>
      res_bind (Object_keys row0) (λ headers,
      csv_rows headers rows (String.concat "," headers +:+ newline))
  end.

(** [job.payload?.fail === true]. *)
Definition payload_fail (p : json) : bool :=
  match get_prop_opt p "fail" with
  | Some (JBool true) => true
  | _ => false
  end.

(** ** The job record and the statements the code sends to the store *)

Inductive Status : Type := pending | processing | completed | failed.

Global Instance Status_eq_dec : EqDecision Status.
Proof. solve_decision. Defined.

Record Job : Type := mkJob {
  job_id : string;
  job_type : string;
  status : Status;
  payload : json;
  result : option json;
  job_error : option string;
  attempts : Z;
  created_at : Z;
  updated_at : Z
}.

Definition MAX_RETRIES : Z := 2.

(** [UPDATE jobs SET status = $1, updated_at = NOW() WHERE id = $2] *)
Definition set_status_now (s : Status) (now : Z) (j : Job) : Job :=
  mkJob (job_id j) (job_type j) s (payload j) (result j) (job_error j)
        (attempts j) (created_at j) now.

(** [UPDATE jobs SET status = $1, result = $2, updated_at = NOW() WHERE id = $3] *)
Definition set_status_result_now (s : Status) (r : json) (now : Z) (j : Job) : Job :=
  mkJob (job_id j) (job_type j) s (payload j) (Some r) (job_error j)
        (attempts j) (created_at j) now.

(** [UPDATE jobs SET attempts = $1, status = $2 WHERE id = $3] *)
Definition set_attempts_status (a : Z) (s : Status) (j : Job) : Job :=
  mkJob (job_id j) (job_type j) s (payload j) (result j) (job_error j)
        a (created_at j) (updated_at j).

(** An [UPDATE ... WHERE id = jobId] changes the row with that id, if any. *)
Definition sql_update (f : Job → Job) (jobId : string)
    (db : gmap string Job) : gmap string Job :=
  alter f jobId db.

(** ** The world the worker acts on *)

(** Entries of the structured log, one constructor per [event] name. *)
Inductive LogEvent : Type :=
| worker_started
| shutdown_signal_received
| job_received (jobId : string)
| job_not_found (jobId : string)
| job_skipped_completed (jobId : string)
| job_processing_started (jobId jobType : string) (attempt : Z)
| csv_export_completed (jobId filePath : string)
| email_sent (jobId : string) (to : option json) (messageId : string)
| job_failed (jobId jobType : string) (attempt : Z) (error : string)
| job_requeued (jobId : string) (attempt : Z)
| job_moved_to_dlq (jobId : string) (attempts : Z)
| worker_shutdown_complete.

Global Instance LogEvent_inhabited : Inhabited LogEvent := populate worker_started.

Record World : Type := mkWorld {
  jobs : gmap string Job;          (* table [jobs] *)
  job_queue : list string;         (* Redis list, leftmost entry first *)
  job_dlq : list string;           (* Redis list, leftmost entry first *)
  files : gmap string string;      (* path to content *)
  console : list LogEvent          (* oldest entry first *)
}.

(** What the environment answers during one iteration of the loop. *)
Record Oracle : Type := mkOracle {
  now_claim : Z;                   (* [NOW()] of the claiming update *)
  now_done : Z;                    (* [NOW()] of the completing update *)
  sendMail : Res string            (* [info.messageId], or the transport throws *)
}.

(** Stateful code that may throw: effects made before the throw remain. *)
Definition M (A : Type) : Type := World → Res A * World.

Global Instance M_ret : MRet M := λ A a w, (Ok a, w).
Global Instance M_bind : MBind M := λ A B k m w,
  match m w with
  | (Ok a, w') => k a w'
  | (Throw e, w') => (Throw e, w')
  end.

Definition throw {A} (message : string) : M A := λ w, (Throw message, w).

Definition lift {A} (r : Res A) : M A := λ w, (r, w).

(** [try { body } catch (err) { handler(err) }] *)
Definition try_catch (body : M unit) (handler : string → M unit) : M unit :=
  λ w, match body w with
       | (Ok tt, w') => (Ok tt, w')
       | (Throw e, w') => handler e w'
       end.

Definition log (e : LogEvent) : M unit := λ w,
  (Ok tt, mkWorld (jobs w) (job_queue w) (job_dlq w) (files w) (console w ++ [e])).

Definition query_select (jobId : string) : M (option Job) := λ w,
  (Ok (jobs w !! jobId), w).

Definition query_update (f : Job → Job) (jobId : string) : M unit := λ w,
  (Ok tt, mkWorld (sql_update f jobId (jobs w)) (job_queue w) (job_dlq w)
                  (files w) (console w)).

(** [redis.lpush("job_queue", id)] *)
Definition lpush_queue (jobId : string) : M unit := λ w,
  (Ok tt, mkWorld (jobs w) (jobId :: job_queue w) (job_dlq w) (files w) (console w)).

(** [redis.lpush("job_dlq", id)] *)
Definition lpush_dlq (jobId : string) : M unit := λ w,
  (Ok tt, mkWorld (jobs w) (job_queue w) (jobId :: job_dlq w) (files w) (console w)).

Definition existsSync (path : string) : M bool := λ w,
  (Ok (bool_decide (is_Some (files w !! path))), w).

Definition writeFileSync (path content : string) : M unit := λ w,
  (Ok tt, mkWorld (jobs w) (job_queue w) (job_dlq w)
                  (<[path := content]> (files w)) (console w)).

(** [if (b) { body }] without an [else]. *)
Definition when (b : bool) (body : M unit) : M unit :=
  if b then body else mret tt.

(** The right end of a Redis list: what [brpop] removes and returns. *)
Fixpoint rpop (q : list string) : option (string * list string) :=
  match q with
  | [] => None
  | [x] => Some (x, [])
  | x :: rest =>
      match rpop rest with
      | Some (y, rest') => Some (y, x :: rest')
      | None => None
      end
  end.

(** ** The worker: lines 49-190 of worker.js *)

Definition is_csv_type (t : string) : bool :=
  bool_decide (t = "CSV_EXPORT") || bool_decide (t = "csv-generation").

Definition is_email_type (t : string) : bool := bool_decide (t = "EMAIL_SEND").

Definition output_path (jobId : string) : string :=
  "/usr/src/app/output/" +:+ jobId +:+ ".csv".

Definition csv_result (jobId : string) : json :=
  JObj [("filePath", JStr ("output/" +:+ jobId +:+ ".csv"))].

Definition email_result (messageId : string) : json :=
  JObj [("messageId", JStr messageId)].

(** The statements that end an attempt, named after what they record:
    lines 114-117 and 142-145 (success), 168-171 (retry), 177-180 (terminal
    failure). None carries a condition on the current status. *)
Definition finalize_success (r : json) (now : Z) (jobId : string) : M unit :=
  query_update (set_status_result_now completed r now) jobId.

Definition finalize_retry (attempts' : Z) (jobId : string) : M unit :=
  query_update (set_attempts_status attempts' pending) jobId.

Definition finalize_terminal (attempts' : Z) (jobId : string) : M unit :=
  query_update (set_attempts_status attempts' failed) jobId.

(** The three outcomes of lines 51-74: the row is missing, the row is
    already [completed], or the row is marked [processing]. The snapshot
    [job] is the row as the [SELECT] returned it. *)
Inductive Claim : Type :=
| NotFound
| SkippedCompleted
| Claimed (job : Job).

(** Lines 51-74: [SELECT], the idempotency check, then the [UPDATE]. *)
Definition claim (now : Z) (jobId : string) : M Claim :=
  jobResult ← query_select jobId;
  match jobResult with
  | None => log (job_not_found jobId) ;; mret NotFound
  | Some job =>
      if decide (status job = completed)
      then log (job_skipped_completed jobId) ;; mret SkippedCompleted
      else query_update (set_status_now processing now) jobId ;;
           mret (Claimed job)
  end.

(** Lines 93-123. *)
Definition csv_handler (o : Oracle) (jobId : string) (job : Job) : M unit :=
  rows ← lift (get_prop (payload job) "data");
  match rows with
  | Some (JArr (row0 :: rest)) =>
      csv ← lift (build_csv (row0 :: rest));
      present ← existsSync (output_path jobId);
      when (negb present) (writeFileSync (output_path jobId) csv) ;;
      finalize_success (csv_result jobId) (now_done o) jobId ;;
      log (csv_export_completed jobId ("output/" +:+ jobId +:+ ".csv"))
  | _ => throw "CSV_EXPORT payload must contain non-empty data array"
  end.

(** Lines 128-152. *)
Definition email_handler (o : Oracle) (jobId : string) (job : Job) : M unit :=
  to ← lift (get_prop (payload job) "to");
  _ ← lift (get_prop (payload job) "subject");
  _ ← lift (get_prop (payload job) "body");
  messageId ← lift (sendMail o);
  finalize_success (email_result messageId) (now_done o) jobId ;;
  log (email_sent jobId to messageId).

(** Lines 82-153, the body of the inner [try]. *)
Definition execute (o : Oracle) (jobId : string) (job : Job) : M unit :=
  when (payload_fail (payload job)) (throw "Intentional failure for retry test") ;;
  when (is_csv_type (job_type job)) (csv_handler o jobId job) ;;
  when (is_email_type (job_type job)) (email_handler o jobId job).

(** Lines 154-190, the inner [catch (err)]. *)
Definition retry_or_dlq (jobId : string) (job : Job) (message : string) : M unit :=
  let attempts' := attempts job + 1 in
  log (job_failed jobId (job_type job) attempts' message) ;;
  if bool_decide (attempts' < MAX_RETRIES)
  then finalize_retry attempts' jobId ;;
       lpush_queue jobId ;;
       log (job_requeued jobId attempts')
  else finalize_terminal attempts' jobId ;;
       lpush_dlq jobId ;;
       log (job_moved_to_dlq jobId attempts').

(** One delivery: everything the loop does with a popped id. *)
Definition process (o : Oracle) (jobId : string) : M unit :=
  log (job_received jobId) ;;
  c ← claim (now_claim o) jobId;
  match c with
  | Claimed job =>
      log (job_processing_started jobId (job_type job) (attempts job)) ;;
      try_catch (execute o jobId job) (retry_or_dlq jobId job)
  | NotFound | SkippedCompleted => mret tt
  end.

(** ** The loop, the shutdown flag and the producer *)

Inductive Pc : Type :=
| AtLoopHead          (* about to test [!shuttingDown] *)
| InBrpop             (* waiting in [redis.brpop("job_queue", 0)] *)
| Exited.             (* after [process.exit(0)] *)

Record Worker : Type := mkWorker {
  world : World;
  pc : Pc;
  shuttingDown : bool
}.

Definition with_queue (q : list string) (w : World) : World :=
  mkWorld (jobs w) q (job_dlq w) (files w) (console w).

(** [brpop] with timeout 0: returns the rightmost id, or keeps waiting. *)
Definition brpop_then_process (o : Oracle) (k : Worker) : Worker :=
  match rpop (job_queue (world k)) with
  | None => mkWorker (world k) InBrpop (shuttingDown k)
  | Some (jobId, q) =>
      mkWorker (snd (process o jobId (with_queue q (world k))))
               AtLoopHead (shuttingDown k)
  end.

(** One scheduling step of the worker process. *)
Definition worker_step (o : Oracle) (k : Worker) : Worker :=
  match pc k with
  | AtLoopHead =>
      if shuttingDown k
      then mkWorker (snd (log worker_shutdown_complete (world k))) Exited true
      else brpop_then_process o k
  | InBrpop => brpop_then_process o k
  | Exited => k
  end.

(** The handlers of SIGTERM and SIGINT. *)
Definition signal (k : Worker) : Worker :=
  match pc k with
  | Exited => k
  | _ => mkWorker (snd (log shutdown_signal_received (world k))) (pc k) true
  end.

Fixpoint run (os : list Oracle) (k : Worker) : Worker :=
  match os with
  | [] => k
  | o :: rest => run rest (worker_step o k)
  end.

Inductive HttpResponse : Type :=
| Created201 (job_id : string)
| BadRequest400
| ServerError500.

(** [payload || {}] *)
Definition payload_or_empty (p : option json) : json :=
  match p with
  | None | Some JNull | Some (JBool false) | Some (JNum 0) | Some (JStr "") => JObj []
  | Some v => v
  end.

(** [POST /jobs] of routes/jobs.js; [jobId] is what [uuidv4()] returns and
    [now] the column default [NOW()]. A duplicate key makes the [INSERT]
    fail, which the route answers with 500. *)
Definition createJob (jobId : string) (type : option string) (p : option json)
    (now : Z) (w : World) : HttpResponse * World :=
  match type with
  | None | Some "" => (BadRequest400, w)
  | Some t =>
      match jobs w !! jobId with
      | Some _ => (ServerError500, w)
      | None =>
          (Created201 jobId,
           mkWorld (<[jobId := mkJob jobId t pending (payload_or_empty p)
                                      None None 0 now now]> (jobs w))
                   (jobId :: job_queue w) (job_dlq w) (files w) (console w))
      end
  end.

Inductive Event : Type :=
| EvCreate (jobId : string) (type : option string) (p : option json) (now : Z)
| EvWorker (o : Oracle)
| EvSignal.

Definition system_step (e : Event) (k : Worker) : Worker :=
  match e with
  | EvCreate jobId type p now =>
      mkWorker (snd (createJob jobId type p now (world k))) (pc k) (shuttingDown k)
  | EvWorker o => worker_step o k
  | EvSignal => signal k
  end.

(** The system at start-up: empty table and queues, any output directory. *)
Definition boot (fs : gmap string string) : Worker :=
  mkWorker (mkWorld ∅ [] [] fs [worker_started]) AtLoopHead false.

Inductive reachable : Worker → Prop :=
| reach_boot fs : reachable (boot fs)
| reach_step e k : reachable k → reachable (system_step e k).

(** ** Abbreviations used in the statements below *)

Definition with_jobs (db : gmap string Job) (w : World) : World :=
  mkWorld db (job_queue w) (job_dlq w) (files w) (console w).

Definition with_files (fs : gmap string string) (w : World) : World :=
  mkWorld (jobs w) (job_queue w) (job_dlq w) fs (console w).

Definition logged (es : list LogEvent) (w : World) : World :=
  mkWorld (jobs w) (job_queue w) (job_dlq w) (files w) (console w ++ es).

(** The world once a delivery of [job] has been claimed and announced. *)
Definition claimed_world (o : Oracle) (jobId : string) (job : Job) (w : World) : World :=
  logged [job_received jobId;
          job_processing_started jobId (job_type job) (attempts job)]
    (with_jobs (sql_update (set_status_now processing (now_claim o)) jobId (jobs w)) w).

(** The world after the inner [catch] chose to retry. *)
Definition requeued_world (jobId : string) (job : Job) (message : string)
    (w : World) : World :=
  mkWorld (sql_update (set_attempts_status (attempts job + 1) pending) jobId (jobs w))
          (jobId :: job_queue w) (job_dlq w) (files w)
          (console w ++ [job_failed jobId (job_type job) (attempts job + 1) message;
                         job_requeued jobId (attempts job + 1)]).

(** The world after the inner [catch] gave the job up. *)
Definition dead_lettered_world (jobId : string) (job : Job) (message : string)
    (w : World) : World :=
  mkWorld (sql_update (set_attempts_status (attempts job + 1) failed) jobId (jobs w))
          (job_queue w) (jobId :: job_dlq w) (files w)
          (console w ++ [job_failed jobId (job_type job) (attempts job + 1) message;
                         job_moved_to_dlq jobId (attempts job + 1)]).

(** The world after a handler stored its result. *)
Definition completed_world (o : Oracle) (jobId : string) (r : json)
    (fs : gmap string string) (ev : LogEvent) (w : World) : World :=
  mkWorld (sql_update (set_status_result_now completed r (now_done o)) jobId (jobs w))
          (job_queue w) (job_dlq w) fs (console w ++ [ev]).

(** How many entries of a Redis list carry [jobId]. *)
Definition occurrences (jobId : string) (l : list string) : nat :=
  length (filter (λ x, x = jobId) l).

Definition is_failure_of (jobId : string) (e : LogEvent) : bool :=
  match e with
  | job_failed i _ _ _ => bool_decide (i = jobId)
  | _ => false
  end.

(** How many attempts of [jobId] the log reports as failed. *)
Definition failures_of (jobId : string) (es : list LogEvent) : nat :=
  length (filter (λ e, is_failure_of jobId e = true) es).

(** The ways one delivery can end, with the world it leaves. *)
Inductive delivery (o : Oracle) (jobId : string) (w : World) : World → Prop :=
| delivery_not_found :
    jobs w !! jobId = None →
    delivery o jobId w (logged [job_received jobId; job_not_found jobId] w)
| delivery_skipped job :
    jobs w !! jobId = Some job → status job = completed →
    delivery o jobId w (logged [job_received jobId; job_skipped_completed jobId] w)
| delivery_unhandled job :
    jobs w !! jobId = Some job → status job ≠ completed →
    payload_fail (payload job) = false →
    is_csv_type (job_type job) = false → is_email_type (job_type job) = false →
    delivery o jobId w (claimed_world o jobId job w)
| delivery_completed job r fs ev :
    jobs w !! jobId = Some job → status job ≠ completed →
    (∀ i, is_failure_of i ev = false) → r ≠ JNull →
    delivery o jobId w (completed_world o jobId r fs ev (claimed_world o jobId job w))
| delivery_requeued job message :
    jobs w !! jobId = Some job → status job ≠ completed →
    attempts job + 1 < MAX_RETRIES →
    delivery o jobId w (requeued_world jobId job message (claimed_world o jobId job w))
| delivery_dead_lettered job message :
    jobs w !! jobId = Some job → status job ≠ completed →
    ¬ attempts job + 1 < MAX_RETRIES →
    delivery o jobId w
      (dead_lettered_world jobId job message (claimed_world o jobId job w)).

(** The handler of a job of type [ty] with payload [p] throws whatever the
    environment answers at [o] (its other fields are not read). *)
Definition handler_fails (o : Oracle) (ty : string) (p : json) : Prop :=
  ∀ jobId job w, job_type job = ty → payload job = p →
    ∃ m, execute o jobId job w = (Throw m, w).

(** The loop is running: not exited and not told to shut down. *)
Definition polling (k : Worker) : Prop := pc k ≠ Exited ∧ shuttingDown k = false.

(** What one delivery can do to the row of a job: the edges of the
    lifecycle as the worker implements it. *)
Inductive job_moves : Job → Job → Prop :=
| moves_nowhere j :
    job_moves j j
| moves_to_processing now j :
    status j ≠ completed →
    job_moves j (set_status_now processing now j)
| moves_to_completed now now' r j :
    status j ≠ completed → r ≠ JNull →
    job_moves j (set_status_result_now completed r now'
                   (set_status_now processing now j))
| moves_to_pending now j :
    status j ≠ completed → attempts j + 1 < MAX_RETRIES →
    job_moves j (set_attempts_status (attempts j + 1) pending
                   (set_status_now processing now j))
| moves_to_failed now j :
    status j ≠ completed → ¬ attempts j + 1 < MAX_RETRIES →
    job_moves j (set_attempts_status (attempts j + 1) failed
                   (set_status_now processing now j)).

(** [result] holds a JSON value other than [null] exactly on [completed]
    rows; on every other row the column is [NULL] or holds JSON [null]. *)
Definition result_iff_completed (j : Job) : Prop :=
  (∃ r, result j = Some r ∧ r ≠ JNull) ↔ status j = completed.

(** A run of the whole system over a sequence of events. *)
Fixpoint run_events (es : list Event) (k : Worker) : Worker :=
  match es with
  | [] => k
  | e :: rest => run_events rest (system_step e k)
  end.

(** The row, the dead-letter entries and the logged failures of [jobId] are
    the same in [k'] as in [k]. *)
Definition untouched (jobId : string) (k k' : Worker) : Prop :=
  jobs (world k') !! jobId = jobs (world k) !! jobId ∧
  occurrences jobId (job_dlq (world k')) = occurrences jobId (job_dlq (world k)) ∧
  failures_of jobId (console (world k')) = failures_of jobId (console (world k)).

(** ** Sample inputs *)

Definition sample_job (ty : string) (p : json) (st : Status) (a : Z) : Job :=
  mkJob "j1" ty st p None None a 0 0.

Definition sample_world (j : Job) (q : list string) (fs : gmap string string) : World :=
  mkWorld {[ "j1" := j ]} q [] fs [].

Definition sample_oracle : Oracle := mkOracle 10 11 (Ok "<m1@test.com>").

Definition one_row : json := JObj [("data", JArr [JObj [("a", JNum 1)]])].

Definition one_row_failing : json :=
  JObj [("fail", JBool true); ("data", JArr [JObj [("a", JNum 1)]])].

Definition just_fail : json := JObj [("fail", JBool true)].

(** The file a CSV job with one row [{a: 1}] writes. *)
Definition one_row_csv : string := "a" +:+ newline +:+ "1" +:+ newline.

(** A completed CSV job, as the worker leaves it. *)
Definition sample_completed_job : Job :=
  mkJob "j1" "csv-generation" completed one_row (Some (csv_result "j1")) None 0 0 11.

(** A worker waiting in [brpop] on an empty queue. *)
Definition idle_worker : Worker :=
  mkWorker (mkWorld ∅ [] [] ∅ [worker_started]) InBrpop false.

(** A freshly booted system in which one CSV job was created and processed. *)
Definition sample_run : Worker :=
  run_events [EvCreate "j1" (Some "csv-generation") (Some one_row) 3;
              EvWorker sample_oracle]
             (boot ∅).

(** A job of a type the worker has no branch for, created through the
    producer and then delivered. *)
Definition sample_unknown_run : Worker :=
  run_events [EvCreate "j1" (Some "pdf-render") None 3;
              EvWorker sample_oracle; EvWorker sample_oracle; EvWorker sample_oracle]
             (boot ∅).

Definition null_row : json := JObj [("data", JArr [JNull])].

(** ** Measures and tables used by the further properties *)

(** The handler of a job of type [ty] with payload [p] stores a result
    whatever the state it runs in, with the environment answering [o]. *)
Definition handler_completes (o : Oracle) (ty : string) (p : json) : Prop :=
  ∀ jobId job w, job_type job = ty → payload job = p →
    ∃ r fs ev, (∀ i, is_failure_of i ev = false) ∧
      execute o jobId job w = (Ok tt, completed_world o jobId r fs ev w).

(** How many more times the inner [catch] would requeue a job. *)
Definition retries_left (j : Job) : nat := Z.to_nat (MAX_RETRIES - 1 - attempts j).

(** The requeues the whole table still allows. *)
Definition budget (db : gmap string Job) : nat :=
  map_fold (λ _ j acc, (retries_left j + acc)%nat) 0%nat db.

(** The work queue holds the ids of the pending rows, once each, and the
    dead-letter queue the ids of the failed rows, once each. *)
Definition queues_mirror_statuses (w : World) : Prop :=
  NoDup (job_queue w) ∧ NoDup (job_dlq w) ∧
  (∀ i, i ∈ job_queue w ↔ ∃ j, jobs w !! i = Some j ∧ status j = pending) ∧
  (∀ i, i ∈ job_dlq w ↔ ∃ j, jobs w !! i = Some j ∧ status j = failed).

(** A job that failed both of its attempts, from creation to dead letter. *)
Definition sample_failed_run : Worker :=
  run_events [EvCreate "j1" (Some "csv-generation") (Some just_fail) 3;
              EvWorker sample_oracle; EvWorker sample_oracle]
             (boot ∅).

(** The names every object inherits from [Object.prototype]. *)
Definition Object_prototype_names : list string :=
  ["constructor"; "__defineGetter__"; "__defineSetter__"; "hasOwnProperty";
   "__lookupGetter__"; "__lookupSetter__"; "isPrototypeOf";
   "propertyIsEnumerable"; "toString"; "valueOf"; "__proto__"; "toLocaleString"].

(** An integer that a JavaScript number holds exactly. *)
Definition safe_integer (n : Z) : bool := bool_decide (- 2 ^ 53 < n < 2 ^ 53).

(** A cell of a table: [null], a boolean, a string or a safe integer. *)
Definition scalar (v : json) : bool :=
  match v with
  | JNull | JBool _ | JStr _ => true
  | JNum n => safe_integer n
  | JArr _ | JObj _ => false
  end.

(** A row of a table under [headers]: an object whose values under the
    headers are scalars. *)
Definition table_row (headers : list string) (row : json) : bool :=
  match row with
  | JObj kv =>
      forallb (λ h, match assoc h kv with Some v => scalar v | None => true end)
              headers
  | _ => false
  end.

(** None of the headers is a name that objects inherit. *)
Definition own_names_only (headers : list string) : bool :=
  forallb (λ h, bool_decide (h ∉ Object_prototype_names)) headers.

(** The text of a scalar cell; the cell of a key the row lacks is empty. *)
Definition scalar_text (c : option json) : string :=
  match c with
  | Some (JBool true) => "true"
  | Some (JBool false) => "false"
  | Some (JNum n) => pretty n
  | Some (JStr s) => s
  | _ => ""
  end.

(** The line of one row of a table: its cells under the headers, separated
    by commas, then the line terminator. *)
Definition csv_line (headers : list string) (row : json) : string :=
  String.concat "," (map (λ h, scalar_text (get_prop_opt row h)) headers)
    +:+ newline.

(** The lines of a file, one after the other. *)
Definition lines_text (lines : list string) : string :=
  foldr String.append "" lines.

(** A value whose conversion to text throws: an object with an own key
    [toString], by itself or as an element of nested arrays. *)
Fixpoint unconvertible (v : json) : bool :=
  match v with
  | JObj kv => match assoc "toString" kv with Some _ => true | None => false end
  | JArr l => existsb unconvertible l
  | _ => false
  end.

(** The row can be rendered under [headers]: it is not [null] and none of
    the cells read under a header is unconvertible. *)
Definition row_renders (headers : list string) (row : json) : bool :=
  match row with
  | JNull => false
  | _ =>
      forallb (λ h, match get_prop_opt row h with
                    | Some v => negb (unconvertible v)
                    | None => true
                    end) headers
  end.

Definition two_rows : list json :=
  [JObj [("name", JStr "Alice"); ("score", JNum 95)];
   JObj [("extra", JBool true); ("score", JNum (-3))]].

Definition mail_payload : json :=
  JObj [("to", JStr "user@example.com"); ("body", JStr "The report is ready.");
        ("subject", JStr "Report")].

(** An e-mail job that waits in the queue. *)
Definition sample_email_job : Job :=
  mkJob "j1" "EMAIL_SEND" pending mail_payload None None 0 3 3.

(** The environment of a consumer whose mail transport is unreachable. *)
Definition refusing_oracle : Oracle :=
  mkOracle 11 13 (Throw "connect ECONNREFUSED 127.0.0.1:1025").

(** ** Basic facts about the queue and the handlers *)

Lemma rpop_snoc (q : list string) (x : string) : rpop (q ++ [x]) = Some (x, q).
Proof.
  induction q as [|y q IH]; [reflexivity|].
  simpl. rewrite IH. destruct (q ++ [x]) eqn:E; [|reflexivity].
  destruct q; discriminate.
Qed.

Lemma rpop_Some (l q : list string) (x : string) : rpop l = Some (x, q) → l = q ++ [x].
Proof.
  destruct l as [|y l] using rev_ind; [done|]. rewrite rpop_snoc. congruence.
Qed.

Lemma rpop_None (q : list string) : rpop q = None → q = [].
Proof.
  destruct q as [|x q] using rev_ind; [done|]. by rewrite rpop_snoc.
Qed.

Lemma csv_not_email (t : string) : is_csv_type t = true → is_email_type t = false.
Proof.
  unfold is_csv_type, is_email_type. intros H.
  apply orb_true_iff in H as [H|H]; apply bool_decide_eq_true in H; subst; reflexivity.
Qed.

Lemma sql_update_present (f : Job → Job) (jobId : string) (db : gmap string Job)
    (j : Job) :
  db !! jobId = Some j → sql_update f jobId db = <[jobId := f j]> db.
Proof.
  intros Hj. apply map_eq; intros i. unfold sql_update.
  rewrite lookup_alter, lookup_insert.
  destruct (decide (jobId = i)) as [<-|]; [by rewrite Hj|done].
Qed.

(** The inner [try] body either throws before any effect, or falls through
    every [if] without effect, or completes the row. *)
Lemma execute_cases (o : Oracle) (jobId : string) (job : Job) (w : World) :
  (∃ m, execute o jobId job w = (Throw m, w)) ∨
  (execute o jobId job w = (Ok tt, w) ∧ payload_fail (payload job) = false ∧
     is_csv_type (job_type job) = false ∧ is_email_type (job_type job) = false) ∨
  (∃ r fs ev,
     (∀ i, is_failure_of i ev = false) ∧ r ≠ JNull ∧
     execute o jobId job w =
       (Ok tt, mkWorld (sql_update (set_status_result_now completed r (now_done o))
                                   jobId (jobs w))
                       (job_queue w) (job_dlq w) fs (console w ++ [ev]))).
Proof.
  unfold execute, when, csv_handler, email_handler, mbind, M_bind, mret, M_ret,
    throw, lift, existsSync, writeFileSync, finalize_success, query_update, log.
  destruct (payload_fail (payload job)); [left; eauto|].
  destruct (is_csv_type (job_type job)) eqn:Hc.
  - rewrite (csv_not_email _ Hc).
    destruct (get_prop (payload job) "data") as [[[| | | |[|row0 rest]|]|]|m];
      try (left; eauto; fail).
    destruct (build_csv (row0 :: rest)) as [csv|m]; [|left; eauto].
    right; right.
    case_bool_decide; cbn; eexists _, _, _; (split; [|split; [|reflexivity]]); done.
  - destruct (is_email_type (job_type job)) eqn:He.
    + destruct (get_prop (payload job) "to") as [to|m]; [|left; eauto].
      destruct (get_prop (payload job) "subject") as [?|m]; [|left; eauto].
      destruct (get_prop (payload job) "body") as [?|m]; [|left; eauto].
      destruct (sendMail o) as [mid|m]; [|left; eauto].
      right; right. cbn. eexists _, _, _. split; [|split; [|reflexivity]]; done.
    + right; left. auto.
Qed.

Lemma execute_csv (o : Oracle) (jobId : string) (w : World) (j : Job)
    (row0 : json) (rest : list json) (csv : string) :
  is_csv_type (job_type j) = true →
  payload_fail (payload j) = false →
  get_prop (payload j) "data" = Ok (Some (JArr (row0 :: rest))) →
  build_csv (row0 :: rest) = Ok csv →
  execute o jobId j w =
    (Ok tt,
     completed_world o jobId (csv_result jobId)
       (if decide (is_Some (files w !! output_path jobId)) then files w
        else <[output_path jobId := csv]> (files w))
       (csv_export_completed jobId ("output/" +:+ jobId +:+ ".csv")) w).
Proof.
  intros Hc Hf Hd Hb.
  unfold execute, when, csv_handler, mbind, M_bind, mret, M_ret, lift, existsSync,
    writeFileSync, finalize_success, query_update, log.
  rewrite Hf, Hc, (csv_not_email _ Hc), Hd, Hb.
  unfold completed_world. by case_bool_decide; rewrite ?decide_True, ?decide_False by done.
Qed.


(** A CSV job whose [data] is an empty array throws at every attempt. *)
Lemma empty_data_handler_fails (o : Oracle) (ty : string) (p : json) :
  is_csv_type ty = true → get_prop p "data" = Ok (Some (JArr [])) →
  handler_fails o ty p.
Proof.
  intros Hc Hd jobId job w Hty Hpay.
  unfold execute, when, csv_handler, mbind, M_bind, mret, M_ret, throw, lift.
  rewrite Hpay, Hty, Hc, Hd.
  destruct (payload_fail p); eauto.
Qed.

Lemma retry_or_dlq_requeues (jobId : string) (job : Job) (m : string) (w : World) :
  attempts job + 1 < MAX_RETRIES →
  retry_or_dlq jobId job m w = (Ok tt, requeued_world jobId job m w).
Proof.
  intros H. unfold retry_or_dlq, mbind, M_bind, log, finalize_retry, query_update, lpush_queue.
  cbn. rewrite bool_decide_eq_true_2 by done. cbn.
  unfold requeued_world. by rewrite <- app_assoc.
Qed.

Lemma retry_or_dlq_dead_letters (jobId : string) (job : Job) (m : string) (w : World) :
  ¬ attempts job + 1 < MAX_RETRIES →
  retry_or_dlq jobId job m w = (Ok tt, dead_lettered_world jobId job m w).
Proof.
  intros H. unfold retry_or_dlq, mbind, M_bind, log, finalize_terminal, query_update, lpush_dlq.
  cbn. rewrite bool_decide_eq_false_2 by done. cbn.
  unfold dead_lettered_world. by rewrite <- app_assoc.
Qed.

(** ** One delivery *)

Lemma process_not_found (o : Oracle) (jobId : string) (w : World) :
  jobs w !! jobId = None →
  process o jobId w = (Ok tt, logged [job_received jobId; job_not_found jobId] w).
Proof.
  intros H. unfold process, claim, mbind, M_bind, mret, M_ret, log, query_select.
  cbn. rewrite H. cbn. unfold logged. by rewrite <- app_assoc.
Qed.

Lemma process_completed (o : Oracle) (jobId : string) (w : World) (job : Job) :
  jobs w !! jobId = Some job → status job = completed →
  process o jobId w =
    (Ok tt, logged [job_received jobId; job_skipped_completed jobId] w).
Proof.
  intros H Hs. unfold process, claim, mbind, M_bind, mret, M_ret, log, query_select.
  cbn. rewrite H. cbn. rewrite decide_True by done. cbn.
  unfold logged. by rewrite <- app_assoc.
Qed.

Lemma process_claimed (o : Oracle) (jobId : string) (w : World) (job : Job) :
  jobs w !! jobId = Some job → status job ≠ completed →
  process o jobId w =
    try_catch (execute o jobId job) (retry_or_dlq jobId job)
              (claimed_world o jobId job w).
Proof.
  intros H Hs. unfold process, claim, mbind, M_bind, mret, M_ret, log, query_select,
    query_update.
  cbn. rewrite H. cbn. rewrite decide_False by done. cbn.
  unfold claimed_world, logged, with_jobs. cbn. by rewrite <- app_assoc.
Qed.

(** A delivery never throws into the loop-level [catch], and ends in one of
    the six ways of [delivery]. *)
Lemma process_delivery (o : Oracle) (jobId : string) (w : World) :
  ∃ w', process o jobId w = (Ok tt, w') ∧ delivery o jobId w w'.
Proof.
  destruct (jobs w !! jobId) as [job|] eqn:Hj.
  2: { eexists; split; [by apply process_not_found|by constructor]. }
  destruct (decide (status job = completed)) as [Hs|Hs].
  { eexists; split; [by eapply process_completed|by econstructor]. }
  rewrite (process_claimed _ _ _ _ Hj Hs). unfold try_catch.
  destruct (execute_cases o jobId job (claimed_world o jobId job w))
    as [[m ->]|[(-> & ? & ? & ?)|(r & fs & ev & Hev & Hr & ->)]].
  - destruct (decide (attempts job + 1 < MAX_RETRIES)) as [Ha|Ha].
    + rewrite retry_or_dlq_requeues by done.
      eexists; split; [done|by apply delivery_requeued].
    + rewrite retry_or_dlq_dead_letters by done.
      eexists; split; [done|by apply delivery_dead_lettered].
  - eexists; split; [done|by apply delivery_unhandled].
  - eexists; split; [done|]. by apply (delivery_completed _ _ _ _ r fs ev).
Qed.

Lemma process_unhandled (o : Oracle) (jobId : string) (w : World) (job : Job) :
  jobs w !! jobId = Some job → status job ≠ completed →
  payload_fail (payload job) = false →
  is_csv_type (job_type job) = false → is_email_type (job_type job) = false →
  process o jobId w = (Ok tt, claimed_world o jobId job w).
Proof.
  intros Hj Hs Hf Hc He. rewrite (process_claimed o jobId w job Hj Hs).
  unfold try_catch, execute, when, mbind, M_bind, mret, M_ret.
  by rewrite Hf, Hc, He.
Qed.

(** The row of the delivered job after an attempt whose handler threw. *)
Lemma process_handler_threw (o : Oracle) (jobId : string) (w : World) (job : Job)
    (m : string) :
  jobs w !! jobId = Some job → status job ≠ completed →
  fst (execute o jobId job (claimed_world o jobId job w)) = Throw m →
  process o jobId w =
    (Ok tt, if bool_decide (attempts job + 1 < MAX_RETRIES)
            then requeued_world jobId job m (claimed_world o jobId job w)
            else dead_lettered_world jobId job m (claimed_world o jobId job w)).
Proof.
  intros Hj Hs Hx. rewrite (process_claimed o jobId w job Hj Hs). unfold try_catch.
  destruct (execute_cases o jobId job (claimed_world o jobId job w))
    as [[m' He]|[(He & _)|(r & fs & ev & _ & _ & He)]]; rewrite He in Hx |- *;
    cbn in Hx; try discriminate.
  injection Hx as ->. case_bool_decide.
  - by apply retry_or_dlq_requeues.
  - by apply retry_or_dlq_dead_letters.
Qed.

(** The row of the delivered job after an attempt whose handler returned. *)
Lemma process_handler_returned (o : Oracle) (jobId : string) (w : World) (job : Job) :
  jobs w !! jobId = Some job → status job ≠ completed →
  fst (execute o jobId job (claimed_world o jobId job w)) = Ok tt →
  process o jobId w = (Ok tt, snd (execute o jobId job (claimed_world o jobId job w))).
Proof.
  intros Hj Hs Hx. rewrite (process_claimed o jobId w job Hj Hs). unfold try_catch.
  destruct (execute o jobId job (claimed_world o jobId job w)) as [[[]|m] w'];
    cbn in *; congruence.
Qed.

Lemma claimed_world_row (o : Oracle) (jobId : string) (w : World) (job : Job) :
  jobs w !! jobId = Some job →
  jobs (claimed_world o jobId job w) !! jobId
    = Some (set_status_now processing (now_claim o) job).
Proof. intros Hj. cbn. unfold sql_update. by rewrite lookup_alter_eq, Hj. Qed.


(** ** What a delivery does to the rows of the table *)

Lemma delivery_rows (o : Oracle) (jobId : string) (w w' : World) :
  delivery o jobId w w' →
  ∀ i, match jobs w !! i with
       | Some j => ∃ j', jobs w' !! i = Some j' ∧ job_moves j j'
       | None => jobs w' !! i = None
       end.
Proof.
  intros Hd i.
  destruct (decide (jobId = i)) as [<-|Hne].
  - destruct Hd as [Hj|job Hj Hs|job Hj Hs _ _ _|job r fs ev Hj Hs _ Hr
                   |job m Hj Hs Ha|job m Hj Hs Ha]; cbn; unfold sql_update;
      rewrite ?lookup_alter_eq, Hj; cbn; try done;
      eexists; (split; [reflexivity|]); by constructor.
  - assert (jobs w' !! i = jobs w !! i) as ->.
    { destruct Hd; cbn; unfold sql_update; by rewrite ?lookup_alter_ne. }
    destruct (jobs w !! i) as [j|]; [|done]. exists j. split; [done|constructor].
Qed.

Lemma job_moves_attempts (j j' : Job) : job_moves j j' → attempts j ≤ attempts j'.
Proof. destruct 1; cbn; lia. Qed.

Lemma job_moves_error (j j' : Job) : job_moves j j' → job_error j' = job_error j.
Proof. by destruct 1. Qed.

Lemma job_moves_identity (j j' : Job) :
  job_moves j j' →
  job_id j' = job_id j ∧ job_type j' = job_type j ∧ payload j' = payload j ∧
  created_at j' = created_at j.
Proof. by destruct 1. Qed.

Lemma job_moves_result (j j' : Job) :
  job_moves j j' → result_iff_completed j → result_iff_completed j'.
Proof.
  unfold result_iff_completed.
  destruct 1 as [j|now j Hs|now now' r j Hs Hr|now j Hs Ha|now j Hs Ha]; cbn;
    intros [H1 H2]; [done|..]; split; intros H; try done; eauto;
    exfalso; apply Hs; by apply H1.
Qed.

(** ** Steps of the worker and of the whole system *)

Lemma worker_step_pops (o : Oracle) (k : Worker) (jobId : string) (q : list string) :
  polling k → rpop (job_queue (world k)) = Some (jobId, q) →
  worker_step o k =
    mkWorker (snd (process o jobId (with_queue q (world k)))) AtLoopHead false.
Proof.
  intros [Hpc Hflag] Hq. unfold worker_step, brpop_then_process.
  rewrite Hflag, Hq. destruct (pc k); congruence.
Qed.

Lemma worker_step_delivery (o : Oracle) (k : Worker) :
  jobs (world (worker_step o k)) = jobs (world k) ∨
  ∃ jobId q, delivery o jobId (with_queue q (world k)) (world (worker_step o k)).
Proof.
  unfold worker_step, brpop_then_process.
  destruct (pc k); [destruct (shuttingDown k); [by left|]| |by left];
    (destruct (rpop (job_queue (world k))) as [[jobId q]|]; [|by left]);
    right; exists jobId, q; cbn;
    by destruct (process_delivery o jobId (with_queue q (world k))) as (w' & -> & Hd).
Qed.

Lemma waiting_on_empty_queue (os : list Oracle) (k : Worker) :
  pc k = InBrpop → job_queue (world k) = [] → run os k = k.
Proof.
  intros Hpc Hq. induction os as [|o os IH]; [done|].
  cbn. unfold worker_step, brpop_then_process. rewrite Hpc, Hq. cbn.
  destruct k as [w p s]; cbn in *; subst. exact IH.
Qed.


Lemma system_step_keeps (e : Event) (k : Worker) (i : string) (j : Job) :
  jobs (world k) !! i = Some j →
  ∃ j', jobs (world (system_step e k)) !! i = Some j' ∧ job_moves j j'.
Proof.
  intros Hj. destruct e as [jobId type p now|o|]; cbn.
  - exists j. split; [|constructor]. unfold createJob.
    destruct type as [[|c t]|]; cbn; try done.
    destruct (jobs (world k) !! jobId) eqn:Hi; cbn; [done|].
    rewrite lookup_insert_ne; [done|congruence].
  - destruct (worker_step_delivery o k) as [->|(jobId & q & Hd)].
    + exists j. split; [done|constructor].
    + pose proof (delivery_rows _ _ _ _ Hd i) as Hr. cbn in Hr. by rewrite Hj in Hr.
  - exists j. split; [|constructor]. unfold signal. by destruct (pc k).
Qed.

Lemma system_step_row (e : Event) (k : Worker) (i : string) (j' : Job) :
  jobs (world (system_step e k)) !! i = Some j' →
  (∃ j, jobs (world k) !! i = Some j ∧ job_moves j j') ∨
  (jobs (world k) !! i = None ∧ status j' = pending ∧ result j' = None ∧
   attempts j' = 0 ∧ job_error j' = None).
Proof.
  intros Hj'. destruct (jobs (world k) !! i) as [j|] eqn:Hj.
  { left. exists j. split; [done|].
    destruct (system_step_keeps e k i j Hj) as (j'' & Hj'' & Hm). congruence. }
  right. split; [done|]. destruct e as [jobId type p now|o|]; cbn in Hj'.
  - unfold createJob in Hj'. destruct type as [[|c t]|]; cbn in Hj'; try congruence.
    destruct (jobs (world k) !! jobId) eqn:Hi; cbn in Hj'; [congruence|].
    destruct (decide (jobId = i)) as [->|Hne].
    + rewrite lookup_insert_eq in Hj'. by injection Hj' as <-.
    + rewrite lookup_insert_ne in Hj' by done. congruence.
  - destruct (worker_step_delivery o k) as [Heq|(jobId & q & Hd)].
    + rewrite Heq in Hj'. congruence.
    + pose proof (delivery_rows _ _ _ _ Hd i) as Hr. cbn in Hr. rewrite Hj in Hr.
      congruence.
  - unfold signal in Hj'. destruct (pc k); cbn in Hj'; congruence.
Qed.

Lemma run_events_keeps (es : list Event) (k : Worker) (i : string) (j : Job) :
  jobs (world k) !! i = Some j →
  ∃ j', jobs (world (run_events es k)) !! i = Some j' ∧
        attempts j ≤ attempts j' ∧ job_error j' = job_error j.
Proof.
  revert k j. induction es as [|e es IH]; intros k j Hj; cbn.
  - exists j. split; [done|]. split; [lia|done].
  - destruct (system_step_keeps e k i j Hj) as (j1 & Hj1 & Hm).
    destruct (IH _ _ Hj1) as (j' & Hj' & Ha & He).
    exists j'. split; [done|].
    pose proof (job_moves_attempts _ _ Hm). pose proof (job_moves_error _ _ Hm).
    split; [lia|congruence].
Qed.

Lemma reachable_run_events (es : list Event) (k : Worker) :
  reachable k → reachable (run_events es k).
Proof.
  revert k. induction es as [|e es IH]; intros k Hk; [done|].
  cbn. apply IH. by constructor.
Qed.

(** ** Counting queue entries and logged failures *)

Lemma occurrences_cons (jobId x : string) (l : list string) :
  occurrences jobId (x :: l) =
    if decide (x = jobId) then S (occurrences jobId l) else occurrences jobId l.
Proof. unfold occurrences. rewrite filter_cons. by destruct (decide (x = jobId)). Qed.

Lemma occurrences_absent (jobId : string) (l : list string) :
  jobId ∉ l → occurrences jobId l = 0%nat.
Proof.
  induction l as [|x l IH]; [done|]. intros Hn. rewrite occurrences_cons.
  apply not_elem_of_cons in Hn as [Hx Hl].
  rewrite decide_False by congruence. by apply IH.
Qed.

Lemma failures_of_app (jobId : string) (es es' : list LogEvent) :
  failures_of jobId (es ++ es') = (failures_of jobId es + failures_of jobId es')%nat.
Proof. unfold failures_of. by rewrite filter_app, length_app. Qed.


Lemma failures_of_other (jobId : string) (es : list LogEvent) :
  (∀ e, e ∈ es → is_failure_of jobId e = false) → failures_of jobId es = 0%nat.
Proof.
  unfold failures_of. induction es as [|e es IH]; [done|]. intros H.
  rewrite filter_cons_False.
  - apply IH. intros e' He'. apply H. by apply elem_of_cons; right.
  - rewrite (H e) by (by apply elem_of_cons; left). discriminate.
Qed.

(** ** Deliveries of other ids leave a job alone *)

(** The delivery of another id leaves a job alone. *)
Lemma delivery_frame (o : Oracle) (x jobId : string) (w w' : World) :
  delivery o x w w' → x ≠ jobId →
  jobs w' !! jobId = jobs w !! jobId ∧
  occurrences jobId (job_dlq w') = occurrences jobId (job_dlq w) ∧
  failures_of jobId (console w') = failures_of jobId (console w) ∧
  (job_queue w' = job_queue w ∨ job_queue w' = x :: job_queue w).
Proof.
  intros Hd Hne.
  assert (∀ es, (∀ e, e ∈ es → is_failure_of jobId e = false) →
            ∀ es0, failures_of jobId (es0 ++ es) = failures_of jobId es0) as Hfail.
  { intros es Hes es0. rewrite failures_of_app, (failures_of_other _ es Hes). lia. }
  split; [|split; [|split]].
  - destruct Hd; cbn; unfold sql_update; by rewrite ?lookup_alter_ne.
  - destruct Hd; cbn; by rewrite ?occurrences_cons, ?decide_False.
  - destruct Hd; cbn [console logged claimed_world completed_world requeued_world
                         dead_lettered_world with_jobs];
      rewrite ?Hfail; try done; intros e He;
      repeat (apply elem_of_cons in He as [->|He]); try (by apply elem_of_nil in He);
      cbn; try done; by rewrite bool_decide_eq_false_2.
  - destruct Hd; cbn; auto.
Qed.

Lemma untouched_refl (jobId : string) (k : Worker) : untouched jobId k k.
Proof. by repeat split. Qed.

Lemma untouched_trans (jobId : string) (k1 k2 k3 : Worker) :
  untouched jobId k1 k2 → untouched jobId k2 k3 → untouched jobId k1 k3.
Proof. unfold untouched. intros (?&?&?) (?&?&?). repeat split; congruence. Qed.

(** One step on another id: the job is untouched and the queue keeps its
    other entries, with at most the popped id pushed back. *)
Lemma worker_step_other (o : Oracle) (k : Worker) (jobId x : string) (q : list string) :
  polling k → job_queue (world k) = q ++ [x] → x ≠ jobId →
  polling (worker_step o k) ∧ untouched jobId k (worker_step o k) ∧
  (job_queue (world (worker_step o k)) = q ∨
   job_queue (world (worker_step o k)) = x :: q).
Proof.
  intros Hk Hq Hne.
  rewrite (worker_step_pops o k x q Hk) by (by rewrite Hq, rpop_snoc).
  destruct (process_delivery o x (with_queue q (world k))) as (w' & -> & Hd).
  destruct (delivery_frame o x jobId _ _ Hd Hne) as (H1 & H2 & H3 & H4).
  split; [by split|]. by split.
Qed.

(** Running through a segment of the queue that does not hold the id. *)
Lemma run_others (jobId : string) (seg : list string) :
  ∀ (pre : list string) (os : list Oracle) (k : Worker),
  polling k → length os = length seg → jobId ∉ seg →
  job_queue (world k) = pre ++ seg →
  ∃ r, polling (run os k) ∧ job_queue (world (run os k)) = r ++ pre ∧
       (jobId ∉ r) ∧ (length r ≤ length seg)%nat ∧ untouched jobId k (run os k).
Proof.
  induction seg as [|x seg IH] using rev_ind; intros pre os k Hk Hlen Hn Hq.
  - destruct os; [|done]. exists []. rewrite app_nil_r in Hq.
    split; [done|]. split; [done|]. split; [apply not_elem_of_nil|].
    split; [done|apply untouched_refl].
  - destruct os as [|o os]; [rewrite length_app in Hlen; cbn in Hlen; lia|].
    rewrite length_app in Hlen. cbn in Hlen.
    apply not_elem_of_app in Hn as [Hseg Hx].
    apply not_elem_of_cons in Hx as [Hx _].
    assert (x ≠ jobId) as Hx' by congruence. clear Hx. rename Hx' into Hx.
    rewrite app_assoc in Hq.
    destruct (worker_step_other o k jobId x (pre ++ seg) Hk Hq Hx)
      as (Hk1 & Hu1 & [Hq1|Hq1]).
    + destruct (IH pre os (worker_step o k) Hk1 ltac:(lia) Hseg Hq1)
        as (r & Hkr & Hqr & Hnr & Hlr & Hur).
      exists r. cbn. split; [done|]. split; [done|]. split; [done|].
      split; [rewrite length_app; cbn; lia|by eapply untouched_trans].
    + destruct (IH (x :: pre) os (worker_step o k) Hk1 ltac:(lia) Hseg Hq1)
        as (r & Hkr & Hqr & Hnr & Hlr & Hur).
      exists (r ++ [x]). cbn. split; [done|].
      split; [by rewrite Hqr, <- app_assoc|].
      split; [apply not_elem_of_app; split; [done|];
              apply not_elem_of_cons; split; [congruence|apply not_elem_of_nil]|].
      split; [rewrite !length_app; cbn; lia|by eapply untouched_trans].
Qed.




(** ** C1: the claim step *)

(** C1, counterexample. Two claims in a row on the same pending job: the
    first moves it to [processing]; the second finds a status that is not
    [pending] and still succeeds, and the row is written again. *)
Lemma claim_twice_both_succeed :
  let j := sample_job "EMAIL_SEND" (JObj []) pending 0 in
  let w := sample_world j [] ∅ in
  let w1 := snd (claim 5 "j1" w) in
  fst (claim 5 "j1" w) = Ok (Claimed j) ∧
  jobs w1 !! "j1" = Some (set_status_now processing 5 j) ∧
  status (set_status_now processing 5 j) ≠ pending ∧
  fst (claim 6 "j1" w1) = Ok (Claimed (set_status_now processing 5 j)) ∧
  jobs (snd (claim 6 "j1" w1)) !! "j1" = Some (set_status_now processing 6 j).
Proof. vm_compute. repeat split; congruence. Qed.

(** C1, as amended. The claim step is a [SELECT] followed by an
    unconditional [UPDATE]: on a row whose status is anything but
    [completed] it succeeds, returns the row as read and sets the status to
    [processing]; on a [completed] row it is skipped and the table is left
    as it was. *)
Theorem claim_skips_only_completed (now : Z) (jobId : string) (w : World) (job : Job) :
  jobs w !! jobId = Some job →
  (status job = completed →
     claim now jobId w = (Ok SkippedCompleted, logged [job_skipped_completed jobId] w)) ∧
  (status job ≠ completed →
     fst (claim now jobId w) = Ok (Claimed job) ∧
     snd (claim now jobId w) =
       with_jobs (<[jobId := set_status_now processing now job]> (jobs w)) w ∧
     status <$> jobs (snd (claim now jobId w)) !! jobId = Some processing).
Proof.
  intros Hj. unfold claim, mbind, M_bind, mret, M_ret, query_select, query_update, log.
  cbn. rewrite Hj. split; intros Hs.
  - by rewrite decide_True.
  - rewrite decide_False by done. cbn. unfold with_jobs, sql_update. cbn.
    assert (alter (set_status_now processing now) jobId (jobs w)
            = <[jobId := set_status_now processing now job]> (jobs w)) as ->.
    { apply map_eq; intros i. rewrite lookup_alter, lookup_insert.
      destruct (decide (jobId = i)); subst; by rewrite ?Hj. }
    by rewrite lookup_insert_eq.
Qed.

Lemma claim_skips_only_completed_witness :
  jobs (sample_world (sample_job "EMAIL_SEND" (JObj []) failed 2) [] ∅) !! "j1"
    = Some (sample_job "EMAIL_SEND" (JObj []) failed 2) ∧
  status (sample_job "EMAIL_SEND" (JObj []) failed 2) ≠ completed ∧
  status <$> jobs (snd (claim 5 "j1"
      (sample_world (sample_job "EMAIL_SEND" (JObj []) failed 2) [] ∅))) !! "j1"
    = Some processing.
Proof.
  split; [reflexivity|]. split; [discriminate|].
  apply (claim_skips_only_completed 5 "j1"
           (sample_world (sample_job "EMAIL_SEND" (JObj []) failed 2) [] ∅)
           (sample_job "EMAIL_SEND" (JObj []) failed 2)); [reflexivity|discriminate].
Defined.

(** ** C2: a job whose handler always fails *)



(** ** C3: re-delivery of a finished job *)

(** C3, counterexample. A job that is [failed] after two attempts is
    delivered again: it is claimed, its handler runs and throws, the row
    changes ([attempts] becomes 3) and the id is pushed on the dead-letter
    queue a second time. *)
Lemma redelivered_failed_job_runs_again :
  let j := sample_job "csv-generation" just_fail failed 2 in
  let k := mkWorker (mkWorld {[ "j1" := j ]} ["j1"] ["j1"] ∅ []) AtLoopHead false in
  let k' := worker_step sample_oracle k in
  status j = failed ∧
  jobs (world k') !! "j1" =
    Some (mkJob "j1" "csv-generation" failed just_fail None None 3 0 10) ∧
  job_dlq (world k') = ["j1"; "j1"] ∧
  console (world k') =
    [job_received "j1"; job_processing_started "j1" "csv-generation" 2;
     job_failed "j1" "csv-generation" 3 "Intentional failure for retry test";
     job_moved_to_dlq "j1" 3].
Proof. vm_compute. repeat split. Qed.

(** C3, as amended. Re-delivering the id of a [completed] job is a no-op:
    the table, the dead-letter queue and the files are unchanged, nothing
    is pushed on the work queue, and the log shows the skip and no attempt.
    (The idempotency check of line 66 names [completed] only.) *)
Theorem redelivery_of_completed_is_noop (o : Oracle) (k : Worker)
    (jobId : string) (q : list string) (job : Job) :
  polling k →
  rpop (job_queue (world k)) = Some (jobId, q) →
  jobs (world k) !! jobId = Some job →
  status job = completed →
  jobs (world (worker_step o k)) = jobs (world k) ∧
  job_queue (world (worker_step o k)) = q ∧
  job_dlq (world (worker_step o k)) = job_dlq (world k) ∧
  files (world (worker_step o k)) = files (world k) ∧
  console (world (worker_step o k)) =
    console (world k) ++ [job_received jobId; job_skipped_completed jobId].
Proof.
  intros Hk Hq Hj Hs. rewrite (worker_step_pops o k jobId q Hk Hq).
  rewrite (process_completed o jobId (with_queue q (world k)) job Hj Hs).
  done.
Qed.

Lemma redelivery_of_completed_is_noop_witness :
  let j := mkJob "j1" "csv-generation" completed one_row
             (Some (csv_result "j1")) None 0 0 11 in
  let k := mkWorker (mkWorld {[ "j1" := j ]} ["j2"; "j1"] [] ∅ []) AtLoopHead false in
  polling k ∧
  jobs (world (worker_step sample_oracle k)) = jobs (world k) ∧
  job_queue (world (worker_step sample_oracle k)) = ["j2"] ∧
  job_dlq (world (worker_step sample_oracle k)) = job_dlq (world k) ∧
  files (world (worker_step sample_oracle k)) = files (world k) ∧
  console (world (worker_step sample_oracle k)) =
    console (world k) ++ [job_received "j1"; job_skipped_completed "j1"].
Proof.
  intros j k.
  assert (polling k) as Hk by (split; [discriminate|reflexivity]).
  split; [exact Hk|].
  apply (redelivery_of_completed_is_noop sample_oracle k "j1" ["j2"] j);
    [exact Hk|reflexivity|reflexivity|reflexivity].
Defined.

(** ** C4: a type no handler matches *)

(** C4, the code at the failing input. A job of type ["pdf-render"] is
    created through [POST /jobs] and delivered: the request is accepted, no
    [if] of the worker matches and nothing throws, so the row stays
    [processing] with [attempts] 0, nothing is pushed on either queue, and
    the worker goes back to waiting with the job never finalized. *)
Lemma unknown_type_stays_processing :
  jobs (world sample_unknown_run) !! "j1" =
    Some (mkJob "j1" "pdf-render" processing (JObj []) None None 0 3 10) ∧
  job_queue (world sample_unknown_run) = [] ∧
  job_dlq (world sample_unknown_run) = [] ∧
  console (world sample_unknown_run) =
    [worker_started; job_received "j1";
     job_processing_started "j1" "pdf-render" 0] ∧
  pc sample_unknown_run = InBrpop.
Proof. vm_compute. repeat split. Qed.

(** ** C5: the attempts counter *)




(** ** C6: result and status *)

(** C6, counterexample. Two consumers hold the same id, as after a
    duplicated queue entry. Both claim the row; the first sends the mail and
    stores its result; the transport of the second is unreachable, and its
    [catch] requeues the job. The row ends [pending] with the result of the
    first still stored. *)
Lemma second_consumer_requeues_completed_row :
  let w0 := sample_world sample_email_job [] ∅ in
  let claimed := set_status_now processing 10 sample_email_job in
  let wA := snd (claim 10 "j1" w0) in
  let wB := snd (claim 11 "j1" wA) in
  let oA := mkOracle 10 12 (Ok "<m1@test.com>") in
  let w1 := snd (try_catch (execute oA "j1" sample_email_job)
                           (retry_or_dlq "j1" sample_email_job) wB) in
  let w2 := snd (try_catch (execute refusing_oracle "j1" claimed)
                           (retry_or_dlq "j1" claimed) w1) in
  fst (claim 10 "j1" w0) = Ok (Claimed sample_email_job) ∧
  fst (claim 11 "j1" wA) = Ok (Claimed claimed) ∧
  jobs w1 !! "j1" =
    Some (mkJob "j1" "EMAIL_SEND" completed mail_payload
                (Some (email_result "<m1@test.com>")) None 0 3 12) ∧
  jobs w2 !! "j1" =
    Some (mkJob "j1" "EMAIL_SEND" pending mail_payload
                (Some (email_result "<m1@test.com>")) None 1 3 12) ∧
  email_result "<m1@test.com>" ≠ JNull ∧ pending ≠ completed.
Proof.
  cbv zeta. split; [reflexivity|]. split; [reflexivity|]. split; [reflexivity|].
  split; [reflexivity|]. split; discriminate.
Qed.

(** C6, as amended. In every state reached from start-up by creating jobs,
    steps of the one worker loop and signals, each queue entry being
    received once, a row holds a result other than [null] if and only if
    its status is [completed]. *)
Theorem result_non_null_iff_completed (k : Worker) (i : string) (j : Job) :
  reachable k →
  jobs (world k) !! i = Some j →
  (∃ r, result j = Some r ∧ r ≠ JNull) ↔ status j = completed.
Proof.
  intros Hr. revert i j. induction Hr as [fs|e k Hr IH]; intros i j Hj.
  - cbn in Hj. by rewrite lookup_empty in Hj.
  - destruct (system_step_row e k i j Hj) as [(j0 & Hj0 & Hm)|(_ & Hs & Hres & _)].
    + apply (job_moves_result j0 j Hm). by apply (IH i).
    + rewrite Hs, Hres. split; [by intros (r & ? & _)|discriminate].
Qed.

Lemma result_non_null_iff_completed_witness :
  reachable sample_run ∧
  jobs (world sample_run) !! "j1" =
    Some (mkJob "j1" "csv-generation" completed one_row
                (Some (csv_result "j1")) None 0 3 11) ∧
  ((∃ r, Some (csv_result "j1") = Some r ∧ r ≠ JNull) ↔ completed = completed).
Proof.
  assert (reachable sample_run) as Hr.
  { apply reachable_run_events. constructor. }
  split; [exact Hr|]. split; [reflexivity|].
  apply (result_non_null_iff_completed sample_run "j1"
           (mkJob "j1" "csv-generation" completed one_row
                  (Some (csv_result "j1")) None 0 3 11) Hr).
  reflexivity.
Defined.

(** ** C7: finalization *)

(** C7, counterexample. The retry statement applied to a row that is
    [completed], not [processing]: no error is reported and the row is
    overwritten, its status set back to [pending]. *)
Lemma finalize_overwrites_completed_row :
  let w := sample_world sample_completed_job [] ∅ in
  status sample_completed_job ≠ processing ∧
  fst (finalize_retry 1 "j1" w) = Ok tt ∧
  jobs (snd (finalize_retry 1 "j1" w)) !! "j1" =
    Some (mkJob "j1" "csv-generation" pending one_row
                (Some (csv_result "j1")) None 1 0 11) ∧
  jobs (snd (finalize_retry 1 "j1" w)) ≠ jobs w.
Proof.
  cbv zeta. split; [discriminate|]. split; [reflexivity|]. split; [reflexivity|].
  intros H. apply (f_equal (λ db, status <$> db !! "j1")) in H. discriminate H.
Qed.

(** C7, as amended. The three finalizing statements carry no condition on
    the current status: applied to an existing row in any status, each
    reports success and overwrites the row. In the worker they are reached
    only from the world the claim of the same delivery has left, in which
    the row is [processing]. *)
Theorem finalize_is_unconditional (jobId : string) (w : World) (j : Job) :
  jobs w !! jobId = Some j →
  (∀ r now, finalize_success r now jobId w =
     (Ok tt, with_jobs (<[jobId := set_status_result_now completed r now j]> (jobs w)) w)) ∧
  (∀ a, finalize_retry a jobId w =
     (Ok tt, with_jobs (<[jobId := set_attempts_status a pending j]> (jobs w)) w)) ∧
  (∀ a, finalize_terminal a jobId w =
     (Ok tt, with_jobs (<[jobId := set_attempts_status a failed j]> (jobs w)) w)) ∧
  (∀ o, status j ≠ completed →
     process o jobId w =
       try_catch (execute o jobId j) (retry_or_dlq jobId j) (claimed_world o jobId j w) ∧
     status <$> jobs (claimed_world o jobId j w) !! jobId = Some processing).
Proof.
  intros Hj.
  unfold finalize_success, finalize_retry, finalize_terminal, query_update, with_jobs.
  repeat split; intros; rewrite ?(sql_update_present _ _ _ _ Hj); try done.
  - by apply process_claimed.
  - by rewrite claimed_world_row.
Qed.

Lemma finalize_is_unconditional_witness :
  jobs (sample_world sample_completed_job [] ∅) !! "j1" = Some sample_completed_job ∧
  finalize_terminal 3 "j1" (sample_world sample_completed_job [] ∅) =
    (Ok tt, with_jobs (<["j1" := set_attempts_status 3 failed sample_completed_job]>
                         (jobs (sample_world sample_completed_job [] ∅)))
                      (sample_world sample_completed_job [] ∅)).
Proof.
  split; [reflexivity|].
  destruct (finalize_is_unconditional "j1" (sample_world sample_completed_job [] ∅)
              sample_completed_job) as (_ & _ & H & _); [reflexivity|].
  apply (H 3).
Defined.

(** ** C8: shutdown *)

(** C8, the code at the failing input. A worker waits in [brpop] on an
    empty queue when the signal arrives: the handler sets the flag, and no
    number of further steps of the worker brings it to its exit, so
    [worker_shutdown_complete] is never logged. *)
Lemma idle_worker_ignores_signal :
  shuttingDown (signal idle_worker) = true ∧
  job_queue (world (signal idle_worker)) = [] ∧
  ¬ ∃ os, pc (run os (signal idle_worker)) = Exited.
Proof.
  split; [reflexivity|]. split; [reflexivity|]. intros [os H].
  rewrite waiting_on_empty_queue in H by reflexivity. discriminate H.
Qed.

(** One step of a worker whose flag is set. At the top of the loop it exits
    without popping; when its pop returns an id it processes that delivery
    to its end and exits at the next loop head; waiting on an empty queue
    it keeps waiting, since [brpop] with timeout 0 does not consult the
    flag. *)
Lemma worker_step_under_flag (o : Oracle) (k : Worker) :
  shuttingDown k = true →
  match pc k with
  | AtLoopHead =>
      pc (worker_step o k) = Exited ∧
      jobs (world (worker_step o k)) = jobs (world k) ∧
      job_queue (world (worker_step o k)) = job_queue (world k) ∧
      job_dlq (world (worker_step o k)) = job_dlq (world k)
  | InBrpop =>
      match rpop (job_queue (world k)) with
      | Some (jobId, q) =>
          worker_step o k =
            mkWorker (snd (process o jobId (with_queue q (world k)))) AtLoopHead true ∧
          ∀ o', pc (worker_step o' (worker_step o k)) = Exited
      | None => ∀ os, run os k = k
      end
  | Exited => worker_step o k = k
  end.
Proof.
  intros Hflag. destruct (pc k) eqn:Hpc.
  - unfold worker_step. by rewrite Hpc, Hflag.
  - destruct (rpop (job_queue (world k))) as [[jobId q]|] eqn:Hq.
    + assert (worker_step o k =
              mkWorker (snd (process o jobId (with_queue q (world k)))) AtLoopHead true)
        as Hstep.
      { unfold worker_step, brpop_then_process. by rewrite Hpc, Hq, Hflag. }
      split; [exact Hstep|]. intros o'. by rewrite Hstep.
    + intros os. apply waiting_on_empty_queue; [done|]. by apply rpop_None.
  - unfold worker_step. by rewrite Hpc.
Qed.

(** ** C9: the error field *)

(** C9, counterexample. The handler of a job throws ["Intentional failure
    for retry test"]: the message goes to the log and the [error] column of
    the row is still null. *)
Lemma failed_attempt_leaves_error_null :
  let j := sample_job "csv-generation" just_fail pending 0 in
  let k := mkWorker (sample_world j ["j1"] ∅) AtLoopHead false in
  let k' := worker_step sample_oracle k in
  console (world k') =
    [job_received "j1"; job_processing_started "j1" "csv-generation" 0;
     job_failed "j1" "csv-generation" 1 "Intentional failure for retry test";
     job_requeued "j1" 1] ∧
  job_error <$> jobs (world k') !! "j1" = Some None ∧
  job_error <$> jobs (world k') !! "j1"
    ≠ Some (Some "Intentional failure for retry test").
Proof. vm_compute. repeat split. discriminate. Qed.

(** C9, as amended. No step of the system writes the [error] field of an
    existing row: whatever value it has persists along every run, through
    failed and successful attempts alike. When a handler attempt fails its
    message is written to the log only, in the [job_failed] entry. *)
Theorem error_field_is_never_written (k : Worker) (i : string) (j : Job) :
  jobs (world k) !! i = Some j →
  (∀ es, ∃ j', jobs (world (run_events es k)) !! i = Some j' ∧
               job_error j' = job_error j) ∧
  (∀ o m, status j ≠ completed →
     fst (execute o i j (claimed_world o i j (world k))) = Throw m →
     job_failed i (job_type j) (attempts j + 1) m
       ∈ console (snd (process o i (world k))) ∧
     job_error <$> jobs (snd (process o i (world k))) !! i = Some (job_error j)).
Proof.
  intros Hj. split.
  - intros es. destruct (run_events_keeps es k i j Hj) as (j' & ? & _ & ?). eauto.
  - intros o m Hs Hx. rewrite (process_handler_threw o i (world k) j m Hj Hs Hx).
    cbn [snd]. case_bool_decide; unfold requeued_world, dead_lettered_world;
      cbn [jobs console];
      (split; [apply elem_of_app; right; apply elem_of_cons; by left|]);
      unfold sql_update at 1; rewrite lookup_alter_eq;
      by rewrite claimed_world_row.
Qed.

Lemma error_field_is_never_written_witness :
  let j := sample_job "csv-generation" just_fail pending 0 in
  let k := mkWorker (sample_world j ["j1"] ∅) AtLoopHead false in
  jobs (world k) !! "j1" = Some j ∧
  ∃ j', jobs (world (run_events [EvWorker sample_oracle; EvWorker sample_oracle] k))
          !! "j1" = Some j' ∧ job_error j' = job_error j.
Proof.
  intros j k. split; [reflexivity|].
  destruct (error_field_is_never_written k "j1" j) as (H & _); [reflexivity|].
  apply (H [EvWorker sample_oracle; EvWorker sample_oracle]).
Defined.

(** ** C10: the CSV handler and an output file that exists *)

(** C10, counterexample. A CSV job with a non-empty data array whose payload
    also has [fail: true], delivered while its output file exists: the
    handler throws at line 87, before the file check, and the job goes back
    to [pending] with one attempt instead of being completed. *)
Lemma csv_job_with_fail_flag_is_retried :
  let j := sample_job "csv-generation" one_row_failing pending 0 in
  let fs : gmap string string := {[ output_path "j1" := one_row_csv ]} in
  let k := mkWorker (sample_world j ["j1"] fs) AtLoopHead false in
  is_csv_type (job_type j) = true ∧
  get_prop (payload j) "data" = Ok (Some (JArr [JObj [("a", JNum 1)]])) ∧
  files (world k) !! output_path "j1" = Some one_row_csv ∧
  jobs (world (worker_step sample_oracle k)) !! "j1" =
    Some (mkJob "j1" "csv-generation" pending one_row_failing None None 1 0 10) ∧
  job_queue (world (worker_step sample_oracle k)) = ["j1"].
Proof. vm_compute. repeat split. Qed.

(** The same happens when the first row is [null]: [Object.keys] throws. *)
Lemma csv_job_with_null_row_is_retried :
  let j := sample_job "csv-generation" null_row pending 0 in
  let k := mkWorker (sample_world j ["j1"] ∅) AtLoopHead false in
  console (world (worker_step sample_oracle k)) =
    [job_received "j1"; job_processing_started "j1" "csv-generation" 0;
     job_failed "j1" "csv-generation" 1 "Cannot convert undefined or null to object";
     job_requeued "j1" 1].
Proof. reflexivity. Qed.

(** C10, as amended. For every CSV job that is claimed, whose payload has no
    [fail: true] and whose non-empty data array renders to CSV text without
    a run-time error: the job is finalized as [completed] with result
    [{filePath: "output/<jobId>.csv"}]; the file is written only if it does
    not exist yet; and the table after the delivery is the same whatever
    the output directory contained. *)
Theorem csv_completion_ignores_existing_file (o : Oracle) (jobId : string)
    (w : World) (j : Job) (row0 : json) (rest : list json) (csv : string) :
  jobs w !! jobId = Some j → status j ≠ completed →
  is_csv_type (job_type j) = true →
  payload_fail (payload j) = false →
  get_prop (payload j) "data" = Ok (Some (JArr (row0 :: rest))) →
  build_csv (row0 :: rest) = Ok csv →
  jobs (snd (process o jobId w)) =
    <[jobId := set_status_result_now completed (csv_result jobId) (now_done o)
                 (set_status_now processing (now_claim o) j)]> (jobs w) ∧
  (is_Some (files w !! output_path jobId) → files (snd (process o jobId w)) = files w) ∧
  (files w !! output_path jobId = None →
     files (snd (process o jobId w)) = <[output_path jobId := csv]> (files w)) ∧
  job_queue (snd (process o jobId w)) = job_queue w ∧
  job_dlq (snd (process o jobId w)) = job_dlq w ∧
  (∀ fs, jobs (snd (process o jobId (with_files fs w))) = jobs (snd (process o jobId w))).
Proof.
  intros Hj Hs Hc Hf Hd Hb.
  assert (∀ fs, jobs (snd (process o jobId (with_files fs w))) =
    <[jobId := set_status_result_now completed (csv_result jobId) (now_done o)
                 (set_status_now processing (now_claim o) j)]> (jobs w)) as Hjobs.
  { intros fs. rewrite (process_claimed o jobId (with_files fs w) j Hj Hs).
    unfold try_catch. rewrite (execute_csv o jobId _ j row0 rest csv Hc Hf Hd Hb).
    cbn. rewrite (sql_update_present _ _ _ _ Hj).
    unfold sql_update. apply map_eq; intros i. rewrite lookup_alter.
    destruct (decide (jobId = i)) as [<-|Hne].
    - by rewrite !lookup_insert_eq.
    - by rewrite !lookup_insert_ne. }
  assert (with_files (files w) w = w) as Hw by (by destruct w).
  split; [by rewrite <- (Hjobs (files w)), Hw|].
  rewrite (process_claimed o jobId w j Hj Hs). unfold try_catch.
  rewrite (execute_csv o jobId _ j row0 rest csv Hc Hf Hd Hb). cbn.
  split; [intros He; by rewrite decide_True|].
  split; [intros Hn; rewrite decide_False; [done|]; rewrite Hn; by intros [? ?]|].
  split; [done|]. split; [done|].
  intros fs. rewrite Hjobs. rewrite <- (Hjobs (files w)), Hw.
  rewrite (process_claimed o jobId w j Hj Hs). unfold try_catch.
  by rewrite (execute_csv o jobId _ j row0 rest csv Hc Hf Hd Hb).
Qed.

Lemma csv_completion_ignores_existing_file_witness :
  let j := sample_job "csv-generation" one_row pending 0 in
  let fs : gmap string string := {[ output_path "j1" := "older content" ]} in
  let w := sample_world j [] fs in
  jobs w !! "j1" = Some j ∧
  build_csv [JObj [("a", JNum 1)]] = Ok one_row_csv ∧
  jobs (snd (process sample_oracle "j1" w)) =
    <["j1" := set_status_result_now completed (csv_result "j1") 11
                (set_status_now processing 10 j)]> (jobs w) ∧
  (is_Some (files w !! output_path "j1") →
     files (snd (process sample_oracle "j1" w)) = files w).
Proof.
  intros j fs w. split; [reflexivity|]. split; [reflexivity|].
  destruct (csv_completion_ignores_existing_file sample_oracle "j1" w j
              (JObj [("a", JNum 1)]) [] one_row_csv) as (H1 & H2 & _);
    [reflexivity|discriminate|reflexivity|reflexivity|reflexivity|reflexivity|].
  split; [exact H1|exact H2].
Defined.

(** ** Further properties: rows, queues and files along any run *)

Lemma job_moves_completed (j j' : Job) :
  job_moves j j' → status j = completed → j' = j.
Proof. by destruct 1. Qed.

(** X1. A [completed] row is final: whatever is created, delivered or
    signalled afterwards, the row stays exactly as it is. *)
Theorem completed_row_is_final (es : list Event) (k : Worker) (i : string) (j : Job) :
  jobs (world k) !! i = Some j → status j = completed →
  jobs (world (run_events es k)) !! i = Some j.
Proof.
  revert k. induction es as [|e es IH]; intros k Hj Hs; [done|].
  cbn. apply IH; [|done].
  destruct (system_step_keeps e k i j Hj) as (j' & Hj' & Hm).
  by rewrite (job_moves_completed j j' Hm Hs) in Hj'.
Qed.

Lemma completed_row_is_final_witness :
  jobs (world sample_run) !! "j1" =
    Some (mkJob "j1" "csv-generation" completed one_row
                (Some (csv_result "j1")) None 0 3 11) ∧
  jobs (world (run_events
                 [EvCreate "j1" (Some "EMAIL_SEND") None 20; EvSignal;
                  EvWorker sample_oracle] sample_run)) !! "j1" =
    Some (mkJob "j1" "csv-generation" completed one_row
                (Some (csv_result "j1")) None 0 3 11).
Proof.
  split; [reflexivity|].
  apply (completed_row_is_final _ sample_run "j1"); reflexivity.
Defined.

Lemma run_events_identity (es : list Event) (k : Worker) (i : string) (j : Job) :
  jobs (world k) !! i = Some j →
  ∃ j', jobs (world (run_events es k)) !! i = Some j' ∧
        job_id j' = job_id j ∧ job_type j' = job_type j ∧
        payload j' = payload j ∧ created_at j' = created_at j.
Proof.
  revert k j. induction es as [|e es IH]; intros k j Hj; cbn; [by exists j|].
  destruct (system_step_keeps e k i j Hj) as (j1 & Hj1 & Hm).
  destruct (job_moves_identity j j1 Hm) as (E1 & E2 & E3 & E4).
  destruct (IH _ _ Hj1) as (j' & Hj' & F1 & F2 & F3 & F4).
  exists j'. split; [done|]. repeat split; congruence.
Qed.

(** X2. No row is ever deleted, and no step changes the id, the type, the
    payload or the creation time of a row: only status, result, attempts
    and [updated_at] move. *)
Theorem rows_keep_their_identity (es : list Event) (k : Worker) (i : string) (j : Job) :
  jobs (world k) !! i = Some j →
  ∃ j', jobs (world (run_events es k)) !! i = Some j' ∧
        job_id j' = job_id j ∧ job_type j' = job_type j ∧
        payload j' = payload j ∧ created_at j' = created_at j.
Proof. apply run_events_identity. Qed.

Lemma rows_keep_their_identity_witness :
  let j := sample_job "csv-generation" just_fail pending 0 in
  let k := mkWorker (sample_world j ["j1"] ∅) AtLoopHead false in
  jobs (world k) !! "j1" = Some j ∧
  ∃ j', jobs (world (run_events [EvWorker sample_oracle; EvWorker sample_oracle] k))
          !! "j1" = Some j' ∧
        job_id j' = "j1" ∧ job_type j' = "csv-generation" ∧
        payload j' = just_fail ∧ created_at j' = 0.
Proof.
  intros j k. split; [reflexivity|].
  apply (rows_keep_their_identity [EvWorker sample_oracle; EvWorker sample_oracle]
           k "j1" j).
  reflexivity.
Defined.

Lemma delivery_appends (o : Oracle) (jobId : string) (w w' : World) :
  delivery o jobId w w' →
  job_dlq w `suffix_of` job_dlq w' ∧ console w `prefix_of` console w'.
Proof.
  destruct 1; cbn; split;
    try (by apply suffix_cons_r); try done;
    rewrite <- ?app_assoc; by apply prefix_app_r.
Qed.

Lemma system_step_appends (e : Event) (k : Worker) :
  job_dlq (world k) `suffix_of` job_dlq (world (system_step e k)) ∧
  console (world k) `prefix_of` console (world (system_step e k)).
Proof.
  destruct e as [jobId type p now|o|]; cbn.
  - unfold createJob. destruct type as [[|c t]|]; cbn; try done.
    by destruct (jobs (world k) !! jobId).
  - unfold worker_step, brpop_then_process.
    assert (job_dlq (world k) `suffix_of`
              job_dlq (world (match rpop (job_queue (world k)) with
                 | Some (jobId, q) =>
                     mkWorker (snd (process o jobId (with_queue q (world k))))
                              AtLoopHead (shuttingDown k)
                 | None => mkWorker (world k) InBrpop (shuttingDown k)
                 end)) ∧
            console (world k) `prefix_of`
              console (world (match rpop (job_queue (world k)) with
                 | Some (jobId, q) =>
                     mkWorker (snd (process o jobId (with_queue q (world k))))
                              AtLoopHead (shuttingDown k)
                 | None => mkWorker (world k) InBrpop (shuttingDown k)
                 end))) as Hpop.
    { destruct (rpop (job_queue (world k))) as [[jobId q]|]; [|done].
      destruct (process_delivery o jobId (with_queue q (world k))) as (w' & -> & Hd).
      by apply delivery_appends in Hd. }
    destruct (pc k); [destruct (shuttingDown k)|..]; try done.
    cbn. split; [done|by apply prefix_app_r].
  - unfold signal. destruct (pc k); cbn; (split; [done|]); try done;
      by apply prefix_app_r.
Qed.

(** X3. The dead-letter queue and the log are append-only: along any run of
    the system the entries they held stay where they were, in the same
    order; nothing is ever removed from either. *)
Theorem dead_letters_and_log_only_grow (es : list Event) (k : Worker) :
  job_dlq (world k) `suffix_of` job_dlq (world (run_events es k)) ∧
  console (world k) `prefix_of` console (world (run_events es k)).
Proof.
  revert k. induction es as [|e es IH]; intros k; [done|]. cbn.
  destruct (system_step_appends e k) as [H1 H2].
  destruct (IH (system_step e k)) as [H3 H4].
  split; by etrans.
Qed.

Lemma execute_files (o : Oracle) (jobId : string) (job : Job) (w : World) :
  (fst (execute o jobId job w) = Ok tt ∨ snd (execute o jobId job w) = w) ∧
  (files (snd (execute o jobId job w)) = files w ∨
   files w !! output_path jobId = None ∧
   ∃ csv, files (snd (execute o jobId job w)) = <[output_path jobId := csv]> (files w)).
Proof.
  unfold execute, when, csv_handler, email_handler, mbind, M_bind, mret, M_ret,
    throw, lift, existsSync, writeFileSync, finalize_success, query_update, log.
  destruct (payload_fail (payload job)); [by auto|].
  destruct (is_csv_type (job_type job)) eqn:Hc.
  - rewrite (csv_not_email _ Hc).
    destruct (get_prop (payload job) "data") as [[[| | | |[|row0 rest]|]|]|m];
      try (by auto).
    destruct (build_csv (row0 :: rest)) as [csv|m]; [|by auto].
    case_bool_decide as Hp; cbn; (split; [by left|]); [by left|].
    right. split; [|by eexists].
    destruct (files w !! output_path jobId) eqn:E; [|done].
    exfalso. apply Hp. by eexists.
  - destruct (is_email_type (job_type job)).
    + destruct (get_prop (payload job) "to") as [to|m]; [|by auto].
      destruct (get_prop (payload job) "subject") as [?|m]; [|by auto].
      destruct (get_prop (payload job) "body") as [?|m]; [|by auto].
      destruct (sendMail o) as [mid|m]; by auto.
    + by auto.
Qed.

(** The only file a delivery can create is the output file of the delivered
    id, and only when no file has that path yet. *)
Lemma process_files (o : Oracle) (jobId : string) (w : World) :
  files (snd (process o jobId w)) = files w ∨
  files w !! output_path jobId = None ∧
  ∃ csv, files (snd (process o jobId w)) = <[output_path jobId := csv]> (files w).
Proof.
  destruct (jobs w !! jobId) as [job|] eqn:Hj;
    [|left; by rewrite process_not_found].
  destruct (decide (status job = completed)) as [Hs|Hs];
    [left; by rewrite (process_completed o jobId w job)|].
  rewrite (process_claimed o jobId w job Hj Hs). unfold try_catch.
  destruct (execute_files o jobId job (claimed_world o jobId job w)) as [Hok Hfs].
  destruct (execute o jobId job (claimed_world o jobId job w)) as [[[]|m] w'] eqn:He;
    cbn in *; [exact Hfs|].
  destruct Hok as [Hok| ->]; [discriminate Hok|]. left.
  destruct (decide (attempts job + 1 < MAX_RETRIES)).
  - by rewrite retry_or_dlq_requeues.
  - by rewrite retry_or_dlq_dead_letters.
Qed.

Lemma system_step_files (e : Event) (k : Worker) (path content : string) :
  files (world k) !! path = Some content →
  files (world (system_step e k)) !! path = Some content.
Proof.
  intros Hp. destruct e as [jobId type p now|o|]; cbn.
  - unfold createJob. destruct type as [[|c t]|]; cbn; try done.
    by destruct (jobs (world k) !! jobId).
  - assert (∀ jobId q, files (world (mkWorker
              (snd (process o jobId (with_queue q (world k)))) AtLoopHead
              (shuttingDown k))) !! path = Some content) as Hpop.
    { intros jobId q. cbn.
      destruct (process_files o jobId (with_queue q (world k)))
        as [->|(Hnone & csv & ->)]; [done|]. cbn in Hnone.
      rewrite lookup_insert_ne; [done|]. intros <-. congruence. }
    unfold worker_step, brpop_then_process.
    destruct (pc k); [destruct (shuttingDown k)|..]; try done;
      by destruct (rpop (job_queue (world k))) as [[jobId q]|].
  - unfold signal. by destruct (pc k).
Qed.

(** X4. The worker never overwrites and never deletes an output file: a file
    that exists keeps its content along any run of the system, so for each
    job the first CSV written is the one that stays. *)
Theorem output_files_are_never_overwritten (es : list Event) (k : Worker)
    (path content : string) :
  files (world k) !! path = Some content →
  files (world (run_events es k)) !! path = Some content.
Proof.
  revert k. induction es as [|e es IH]; intros k Hp; [done|].
  cbn. apply IH. by apply system_step_files.
Qed.

Lemma output_files_are_never_overwritten_witness :
  let j := sample_job "csv-generation" one_row pending 0 in
  let fs : gmap string string := {[ output_path "j1" := "older content" ]} in
  let k := mkWorker (sample_world j ["j1"] fs) AtLoopHead false in
  files (world k) !! output_path "j1" = Some "older content" ∧
  files (world (run_events [EvWorker sample_oracle] k)) !! output_path "j1"
    = Some "older content" ∧
  status <$> jobs (world (run_events [EvWorker sample_oracle] k)) !! "j1"
    = Some completed.
Proof.
  intros j fs k. split; [reflexivity|]. split; [|reflexivity].
  apply (output_files_are_never_overwritten [EvWorker sample_oracle] k).
  reflexivity.
Defined.

(** ** Further properties: single deliveries *)

(** X5. An id with no row in the table is dropped: the delivery consumes the
    queue entry, logs [job_not_found] and touches neither the table, nor
    the dead-letter queue, nor the files; the id is not pushed back. *)
Theorem delivery_of_unknown_id_is_dropped (o : Oracle) (k : Worker)
    (jobId : string) (q : list string) :
  polling k →
  rpop (job_queue (world k)) = Some (jobId, q) →
  jobs (world k) !! jobId = None →
  world (worker_step o k) =
    mkWorld (jobs (world k)) q (job_dlq (world k)) (files (world k))
            (console (world k) ++ [job_received jobId; job_not_found jobId]) ∧
  pc (worker_step o k) = AtLoopHead.
Proof.
  intros Hk Hq Hj. rewrite (worker_step_pops o k jobId q Hk Hq).
  by rewrite (process_not_found o jobId (with_queue q (world k)) Hj).
Qed.

Lemma delivery_of_unknown_id_is_dropped_witness :
  let j := sample_job "csv-generation" one_row pending 0 in
  let k := mkWorker (sample_world j ["j1"; "gone"] ∅) InBrpop false in
  polling k ∧
  world (worker_step sample_oracle k) =
    mkWorld (jobs (world k)) ["j1"] [] ∅ [job_received "gone"; job_not_found "gone"] ∧
  pc (worker_step sample_oracle k) = AtLoopHead.
Proof.
  intros j k.
  assert (polling k) as Hk by (split; [discriminate|reflexivity]).
  split; [exact Hk|].
  apply (delivery_of_unknown_id_is_dropped sample_oracle k "gone" ["j1"] Hk);
    reflexivity.
Defined.

(** X6. A delivery whose handler throws pushes the id on exactly one queue,
    chosen by the attempts read at the claim: with no attempt counted yet
    the row goes back to [pending] and the id to the left end of the work
    queue; with one attempt or more the row becomes [failed] and the id
    goes to the dead-letter queue. In both cases [attempts] grows by one. *)
Theorem failing_delivery_requeues_or_dead_letters (o : Oracle) (k : Worker)
    (jobId : string) (q : list string) (j : Job) (m : string) :
  polling k →
  rpop (job_queue (world k)) = Some (jobId, q) →
  jobs (world k) !! jobId = Some j → status j ≠ completed →
  fst (execute o jobId j (claimed_world o jobId j (with_queue q (world k)))) = Throw m →
  (attempts j < 1 →
     jobs (world (worker_step o k)) !! jobId =
       Some (set_attempts_status (attempts j + 1) pending
               (set_status_now processing (now_claim o) j)) ∧
     job_queue (world (worker_step o k)) = jobId :: q ∧
     job_dlq (world (worker_step o k)) = job_dlq (world k)) ∧
  (1 ≤ attempts j →
     jobs (world (worker_step o k)) !! jobId =
       Some (set_attempts_status (attempts j + 1) failed
               (set_status_now processing (now_claim o) j)) ∧
     job_queue (world (worker_step o k)) = q ∧
     job_dlq (world (worker_step o k)) = jobId :: job_dlq (world k)).
Proof.
  intros Hk Hq Hj Hs Hx. rewrite (worker_step_pops o k jobId q Hk Hq).
  rewrite (process_handler_threw o jobId (with_queue q (world k)) j m Hj Hs Hx).
  cbn [world snd]. unfold MAX_RETRIES.
  split; intros Ha.
  - rewrite bool_decide_eq_true_2 by lia. cbn. unfold sql_update.
    by rewrite !lookup_alter_eq, Hj.
  - rewrite bool_decide_eq_false_2 by lia. cbn. unfold sql_update.
    by rewrite !lookup_alter_eq, Hj.
Qed.

Lemma failing_delivery_requeues_or_dead_letters_witness :
  let j := sample_job "EMAIL_SEND" (JObj []) pending 1 in
  let o := mkOracle 10 11 (Throw "connect ECONNREFUSED") in
  let k := mkWorker (sample_world j ["j1"] ∅) AtLoopHead false in
  polling k ∧ 1 ≤ attempts j ∧
  jobs (world (worker_step o k)) !! "j1" =
    Some (set_attempts_status 2 failed (set_status_now processing 10 j)) ∧
  job_queue (world (worker_step o k)) = [] ∧
  job_dlq (world (worker_step o k)) = ["j1"].
Proof.
  intros j o k.
  assert (polling k) as Hk by (split; [discriminate|reflexivity]).
  split; [exact Hk|]. split; [cbn; lia|].
  destruct (failing_delivery_requeues_or_dead_letters o k "j1" [] j
              "connect ECONNREFUSED" Hk) as (_ & H);
    [reflexivity|reflexivity|discriminate|reflexivity|].
  apply H. cbn. lia.
Defined.

(** ** Further properties: the queues and the statuses *)

Lemma mirror_after_delivery (W : World) (x : string) (q : list string)
    (db' : gmap string Job) (j' : Job) (qu' dl' : list string)
    (fs : gmap string string) (cs : list LogEvent) :
  queues_mirror_statuses W → job_queue W = q ++ [x] →
  db' !! x = Some j' → (∀ i, i ≠ x → db' !! i = jobs W !! i) →
  (status j' = pending ∧ qu' = x :: q ∧ dl' = job_dlq W ∨
   status j' = failed ∧ qu' = q ∧ dl' = x :: job_dlq W ∨
   status j' ≠ pending ∧ status j' ≠ failed ∧ qu' = q ∧ dl' = job_dlq W) →
  queues_mirror_statuses (mkWorld db' qu' dl' fs cs).
Proof.
  intros (Hnq & Hnd & Hq & Hd) HW Hx' Hother Hcase.
  rewrite HW in Hnq, Hq.
  apply NoDup_app in Hnq as (Hnq & Hxq & _).
  assert (x ∉ q) as Hxnq.
  { intros Hin. apply (Hxq x Hin). by apply list_elem_of_singleton. }
  assert (∃ j, jobs W !! x = Some j ∧ status j = pending) as (j & Hj & Hs).
  { apply Hq. apply elem_of_app. right. by apply list_elem_of_singleton. }
  assert (x ∉ job_dlq W) as Hxnd.
  { intros Hin. apply Hd in Hin as (j0 & Hj0 & Hs0). congruence. }
  assert (∀ i, i ≠ x → (i ∈ q ↔ ∃ j, db' !! i = Some j ∧ status j = pending)) as Hq'.
  { intros i Hi. rewrite (Hother i Hi), <- Hq, elem_of_app, list_elem_of_singleton.
    tauto. }
  assert (∀ i, i ≠ x →
            (i ∈ job_dlq W ↔ ∃ j, db' !! i = Some j ∧ status j = failed)) as Hd'.
  { intros i Hi. by rewrite (Hother i Hi), <- Hd. }
  unfold queues_mirror_statuses. cbn.
  destruct Hcase as [(Hs' & -> & ->)|[(Hs' & -> & ->)|(Hs1 & Hs2 & -> & ->)]].
  - split; [by apply NoDup_cons|]. split; [done|]. split; intros i.
    + destruct (decide (i = x)) as [->|Hi].
      * split; [by eauto|]. intros _. by apply elem_of_cons; left.
      * rewrite elem_of_cons, <- (Hq' i Hi). tauto.
    + destruct (decide (i = x)) as [->|Hi]; [|by apply Hd'].
      split; [done|]. intros (j0 & Hj0 & Hs0). congruence.
  - split; [done|]. split; [by apply NoDup_cons|]. split; intros i.
    + destruct (decide (i = x)) as [->|Hi]; [|by apply Hq'].
      split; [done|]. intros (j0 & Hj0 & Hs0). congruence.
    + destruct (decide (i = x)) as [->|Hi].
      * split; [by eauto|]. intros _. by apply elem_of_cons; left.
      * rewrite elem_of_cons, <- (Hd' i Hi). tauto.
  - split; [done|]. split; [done|]. split; intros i.
    + destruct (decide (i = x)) as [->|Hi]; [|by apply Hq'].
      split; [done|]. intros (j0 & Hj0 & Hs0). congruence.
    + destruct (decide (i = x)) as [->|Hi]; [|by apply Hd'].
      split; [done|]. intros (j0 & Hj0 & Hs0). congruence.
Qed.

Lemma delivery_mirror (o : Oracle) (x : string) (q : list string) (W w' : World) :
  queues_mirror_statuses W → job_queue W = q ++ [x] →
  delivery o x (with_queue q W) w' → queues_mirror_statuses w'.
Proof.
  intros HW Hqu Hd.
  assert (∃ j, jobs W !! x = Some j ∧ status j = pending) as (j & Hj & Hs).
  { destruct HW as (_ & _ & Hq & _). apply Hq. rewrite Hqu.
    apply elem_of_app. right. by apply list_elem_of_singleton. }
  assert (∀ (f : Job → Job) i, i ≠ x →
            sql_update f x (jobs W) !! i = jobs W !! i) as Hne1.
  { intros f i Hi. unfold sql_update. by rewrite lookup_alter_ne. }
  assert (∀ (f g : Job → Job) i, i ≠ x →
            sql_update g x (sql_update f x (jobs W)) !! i = jobs W !! i) as Hne2.
  { intros f g i Hi. unfold sql_update. by rewrite !lookup_alter_ne. }
  assert (∀ f : Job → Job, sql_update f x (jobs W) !! x = Some (f j)) as Heq1.
  { intros f. unfold sql_update. by rewrite lookup_alter_eq, Hj. }
  assert (∀ f g : Job → Job,
            sql_update g x (sql_update f x (jobs W)) !! x = Some (g (f j))) as Heq2.
  { intros f g. unfold sql_update. by rewrite !lookup_alter_eq, Hj. }
  destruct Hd as [Hn|job Hjob Hc|job Hjob _ _ _ _|job r fs ev Hjob _ _ _
                 |job m Hjob _ Ha|job m Hjob _ Ha]; cbn in *; try congruence.
  - eapply (mirror_after_delivery W x q); [done|done|apply Heq1|apply Hne1|].
    cbn. right; right. by repeat split.
  - eapply (mirror_after_delivery W x q); [done|done|apply Heq2|apply Hne2|].
    cbn. right; right. by repeat split.
  - eapply (mirror_after_delivery W x q); [done|done|apply Heq2|apply Hne2|].
    cbn. by left.
  - eapply (mirror_after_delivery W x q); [done|done|apply Heq2|apply Hne2|].
    cbn. right; left. by repeat split.
Qed.

Lemma system_step_mirror (e : Event) (k : Worker) :
  queues_mirror_statuses (world k) → queues_mirror_statuses (world (system_step e k)).
Proof.
  intros HW. destruct e as [jobId type p now|o|]; cbn.
  - unfold createJob. destruct type as [[|c t]|]; cbn; try done.
    destruct (jobs (world k) !! jobId) eqn:Hfresh; cbn; [done|].
    destruct HW as (Hnq & Hnd & Hq & Hd).
    assert (jobId ∉ job_queue (world k)) as Hxq.
    { intros Hin. apply Hq in Hin as (j0 & Hj0 & _). congruence. }
    assert (jobId ∉ job_dlq (world k)) as Hxd.
    { intros Hin. apply Hd in Hin as (j0 & Hj0 & _). congruence. }
    split; [by apply NoDup_cons|]. split; [done|]. cbn. split; intros i.
    + destruct (decide (i = jobId)) as [->|Hi].
      * rewrite lookup_insert_eq. split; [by eauto|]. intros _. by apply elem_of_cons; left.
      * rewrite lookup_insert_ne by done. rewrite elem_of_cons, <- Hq. tauto.
    + destruct (decide (i = jobId)) as [->|Hi].
      * rewrite lookup_insert_eq. split; [done|].
        intros (j0 & Hj0 & Hs0). by injection Hj0 as <-.
      * rewrite lookup_insert_ne by done. apply Hd.
  - unfold worker_step, brpop_then_process.
    assert (queues_mirror_statuses (world (match rpop (job_queue (world k)) with
               | Some (jobId, q) =>
                   mkWorker (snd (process o jobId (with_queue q (world k))))
                            AtLoopHead (shuttingDown k)
               | None => mkWorker (world k) InBrpop (shuttingDown k)
               end))) as Hpop.
    { destruct (rpop (job_queue (world k))) as [[jobId q]|] eqn:Hq; [|done].
      apply rpop_Some in Hq.
      destruct (process_delivery o jobId (with_queue q (world k))) as (w' & -> & Hd).
      by apply (delivery_mirror o jobId q (world k)). }
    by destruct (pc k); [destruct (shuttingDown k)|..].
  - unfold signal. by destruct (pc k).
Qed.

Lemma reachable_mirror (k : Worker) : reachable k → queues_mirror_statuses (world k).
Proof.
  induction 1 as [fs|e k Hr IH]; [|by apply system_step_mirror].
  split; [apply NoDup_nil_2|]. split; [apply NoDup_nil_2|]. cbn.
  split; intros i; (split; [by intros ?%elem_of_nil|]);
    intros (j & Hj & _); by rewrite lookup_empty in Hj.
Qed.

(** X7. Between iterations and between requests, with one worker and a
    broker that delivers each entry once, the queues mirror the table: the
    work queue holds exactly the ids of the [pending] rows, the dead-letter
    queue exactly the ids of the [failed] rows, and neither holds an id
    twice. Inside an iteration the two are out of step, the popped id
    being off the queue before its row leaves [pending]; the statement is
    about the states in which no iteration and no request is under way. *)
Theorem queues_hold_pending_and_failed_ids (k : Worker) :
  reachable k →
  NoDup (job_queue (world k)) ∧ NoDup (job_dlq (world k)) ∧
  (∀ i, i ∈ job_queue (world k) ↔
        ∃ j, jobs (world k) !! i = Some j ∧ status j = pending) ∧
  (∀ i, i ∈ job_dlq (world k) ↔
        ∃ j, jobs (world k) !! i = Some j ∧ status j = failed).
Proof. apply reachable_mirror. Qed.

Lemma queues_hold_pending_and_failed_ids_witness :
  reachable sample_run ∧
  NoDup (job_queue (world sample_run)) ∧ NoDup (job_dlq (world sample_run)) ∧
  (∀ i, i ∈ job_queue (world sample_run) ↔
        ∃ j, jobs (world sample_run) !! i = Some j ∧ status j = pending) ∧
  (∀ i, i ∈ job_dlq (world sample_run) ↔
        ∃ j, jobs (world sample_run) !! i = Some j ∧ status j = failed).
Proof.
  assert (reachable sample_run) as Hr.
  { apply reachable_run_events. constructor. }
  split; [exact Hr|]. exact (queues_hold_pending_and_failed_ids sample_run Hr).
Defined.

(** A step changes a row only by delivering it, and then the row was
    [pending]. *)
Lemma system_step_moves_pending (e : Event) (k : Worker) (i : string) (j j' : Job) :
  queues_mirror_statuses (world k) →
  jobs (world k) !! i = Some j →
  jobs (world (system_step e k)) !! i = Some j' →
  j' = j ∨ status j = pending ∧ job_moves j j'.
Proof.
  intros HW Hj Hj'. destruct e as [jobId type p now|o|].
  - left. destruct (system_step_keeps (EvCreate jobId type p now) k i j Hj)
      as (j1 & Hj1 & _). cbn in Hj', Hj1. unfold createJob in Hj'.
    destruct type as [[|c t]|]; cbn in Hj'; try congruence.
    destruct (jobs (world k) !! jobId) eqn:Hfresh; cbn in Hj'; [congruence|].
    rewrite lookup_insert_ne in Hj' by congruence. congruence.
  - cbn in Hj' |- *. unfold worker_step, brpop_then_process in Hj'.
    assert (∀ jobId q, rpop (job_queue (world k)) = Some (jobId, q) →
              jobs (snd (process o jobId (with_queue q (world k)))) !! i = Some j' →
              j' = j ∨ status j = pending ∧ job_moves j j') as Hpop.
    { intros jobId q Hq Hrow. apply rpop_Some in Hq.
      destruct (process_delivery o jobId (with_queue q (world k))) as (w' & Hp & Hd).
      rewrite Hp in Hrow. cbn in Hrow.
      destruct (decide (jobId = i)) as [->|Hne].
      - right. split.
        + destruct HW as (_ & _ & Hqu & _).
          destruct (proj1 (Hqu i)) as (j0 & Hj0 & Hs0); [|congruence].
          rewrite Hq. apply elem_of_app. right. by apply list_elem_of_singleton.
        + pose proof (delivery_rows _ _ _ _ Hd i) as Hr. cbn in Hr.
          rewrite Hj in Hr. destruct Hr as (j1 & Hj1 & Hm). congruence.
      - left. destruct (delivery_frame o jobId i _ _ Hd Hne) as (Hsame & _).
        cbn in Hsame. congruence. }
    destruct (pc k); [destruct (shuttingDown k)|..]; cbn in Hj';
      try (left; congruence);
      (destruct (rpop (job_queue (world k))) as [[jobId q]|] eqn:Hq;
       cbn in Hj'; [by eapply Hpop|left; congruence]).
  - left. cbn in Hj'. unfold signal in Hj'. destruct (pc k); cbn in Hj'; congruence.
Qed.

Lemma job_moves_failed (j j' : Job) :
  job_moves j j' → status j = pending → 0 ≤ attempts j ≤ 1 →
  0 ≤ attempts j' ≤ MAX_RETRIES ∧ (status j' = failed ↔ attempts j' = MAX_RETRIES).
Proof.
  unfold MAX_RETRIES.
  destruct 1 as [j|now j Hs|now now' r j Hs _|now j Hs Ha|now j Hs Ha]; cbn;
    intros Hp Hb; unfold MAX_RETRIES in *;
    (split; [lia|]); split; intros H; try congruence; try lia.
Qed.

(** Attempts stay within the budget, and a row is [failed] exactly when its
    attempts have reached [MAX_RETRIES]. *)
Lemma reachable_attempts (k : Worker) :
  reachable k →
  ∀ i j, jobs (world k) !! i = Some j →
    0 ≤ attempts j ≤ MAX_RETRIES ∧ (status j = failed ↔ attempts j = MAX_RETRIES).
Proof.
  induction 1 as [fs|e k Hr IH]; intros i j' Hj'.
  { cbn in Hj'. by rewrite lookup_empty in Hj'. }
  destruct (system_step_row e k i j' Hj') as [(j & Hj & _)|(_ & Hs & _ & Ha & _)].
  - destruct (system_step_moves_pending e k i j j' (reachable_mirror k Hr) Hj Hj')
      as [->|(Hp & Hm)]; [by apply (IH i)|].
    destruct (IH i j Hj) as (Hb & Hf).
    apply (job_moves_failed j j' Hm Hp). unfold MAX_RETRIES in *.
    assert (attempts j ≠ 2) by (intros E; apply Hf in E; congruence). lia.
  - rewrite Hs, Ha. unfold MAX_RETRIES. split; [lia|]. split; intros; [done|lia].
Qed.

(** X8. The retry budget is never exceeded: in every state the system can
    reach, each row has between 0 and [MAX_RETRIES] attempts, and its status
    is [failed] exactly when the attempts have reached [MAX_RETRIES]. *)
Theorem attempts_stay_within_budget (k : Worker) (i : string) (j : Job) :
  reachable k → jobs (world k) !! i = Some j →
  0 ≤ attempts j ≤ MAX_RETRIES ∧ (status j = failed ↔ attempts j = MAX_RETRIES).
Proof. intros Hr. by apply reachable_attempts. Qed.

Lemma attempts_stay_within_budget_witness :
  reachable sample_failed_run ∧
  jobs (world sample_failed_run) !! "j1" =
    Some (mkJob "j1" "csv-generation" failed just_fail None None 2 3 10) ∧
  0 ≤ 2 ≤ MAX_RETRIES ∧ (failed = failed ↔ 2 = MAX_RETRIES).
Proof.
  assert (reachable sample_failed_run) as Hr.
  { apply reachable_run_events. constructor. }
  split; [exact Hr|]. split; [reflexivity|].
  apply (attempts_stay_within_budget sample_failed_run "j1"
           (mkJob "j1" "csv-generation" failed just_fail None None 2 3 10) Hr).
  reflexivity.
Defined.

(** X9. With every entry delivered once, [failed] is final: a row that is
    [failed] in a reachable state is never claimed again and stays exactly
    as it is along any further run. *)
Theorem failed_row_is_final (es : list Event) (k : Worker) (i : string) (j : Job) :
  reachable k → jobs (world k) !! i = Some j → status j = failed →
  jobs (world (run_events es k)) !! i = Some j.
Proof.
  revert k. induction es as [|e es IH]; intros k Hr Hj Hs; [done|].
  cbn. apply IH; [by constructor| |done].
  destruct (system_step_keeps e k i j Hj) as (j' & Hj' & _).
  destruct (system_step_moves_pending e k i j j' (reachable_mirror k Hr) Hj Hj')
    as [->|(Hp & _)]; [done|congruence].
Qed.

Lemma failed_row_is_final_witness :
  reachable sample_failed_run ∧
  jobs (world sample_failed_run) !! "j1" =
    Some (mkJob "j1" "csv-generation" failed just_fail None None 2 3 10) ∧
  jobs (world (run_events
                 [EvCreate "j2" (Some "EMAIL_SEND") None 20; EvWorker sample_oracle;
                  EvWorker sample_oracle] sample_failed_run)) !! "j1" =
    Some (mkJob "j1" "csv-generation" failed just_fail None None 2 3 10).
Proof.
  assert (reachable sample_failed_run) as Hr.
  { apply reachable_run_events. constructor. }
  split; [exact Hr|]. split; [reflexivity|].
  apply (failed_row_is_final _ sample_failed_run "j1" _ Hr); reflexivity.
Defined.

(** ** Further properties: the loop runs out of work *)

Lemma retries_left_comm (j1 j2 : Job) (y : nat) :
  (retries_left j1 + (retries_left j2 + y) = retries_left j2 + (retries_left j1 + y))%nat.
Proof. lia. Qed.

Lemma budget_sql_update (f : Job → Job) (x : string) (db : gmap string Job) (j : Job) :
  db !! x = Some j →
  (budget (sql_update f x db) + retries_left j = budget db + retries_left (f j))%nat.
Proof.
  intros Hj. rewrite (sql_update_present f x db j Hj). unfold budget.
  rewrite (map_fold_delete_L _ _ x j db) by (intros; apply retries_left_comm || done).
  rewrite <- (insert_delete_eq db x (f j)).
  rewrite map_fold_insert_L;
    [lia|intros; apply retries_left_comm|apply lookup_delete_eq].
Qed.

(** A delivery consumes a queue entry or a retry. *)
Lemma delivery_measure (o : Oracle) (x : string) (q : list string) (W w' : World) :
  delivery o x (with_queue q W) w' →
  (length (job_queue w') + budget (jobs w') ≤ length q + budget (jobs W))%nat.
Proof.
  assert (∀ (f g : Job → Job) j, jobs W !! x = Some j →
            (budget (sql_update g x (sql_update f x (jobs W))) + retries_left j
             = budget (jobs W) + retries_left (g (f j)))%nat) as H2.
  { intros f g j Hj.
    pose proof (budget_sql_update f x (jobs W) j Hj) as H1.
    assert (sql_update f x (jobs W) !! x = Some (f j)) as Hfj.
    { unfold sql_update. by rewrite lookup_alter_eq, Hj. }
    pose proof (budget_sql_update g x _ (f j) Hfj). lia. }
  destruct 1 as [Hn|job Hj Hc|job Hj _ _ _ _|job r fs ev Hj _ _ _
                |job m Hj _ Ha|job m Hj _ Ha]; cbn in *; try lia.
  - pose proof (budget_sql_update (set_status_now processing (now_claim o)) x
                  (jobs W) job Hj) as H1.
    unfold retries_left in H1. cbn in H1. lia.
  - pose proof (H2 (set_status_now processing (now_claim o))
                  (set_status_result_now completed r (now_done o)) job Hj) as H.
    unfold retries_left in H. cbn in H. lia.
  - pose proof (H2 (set_status_now processing (now_claim o))
                  (set_attempts_status (attempts job + 1) pending) job Hj) as H.
    unfold retries_left, MAX_RETRIES in *. cbn in H. lia.
  - pose proof (H2 (set_status_now processing (now_claim o))
                  (set_attempts_status (attempts job + 1) failed) job Hj) as H.
    unfold retries_left, MAX_RETRIES in *. cbn in H. lia.
Qed.

Lemma run_on_empty_queue (os : list Oracle) (k : Worker) :
  polling k → job_queue (world k) = [] → world (run os k) = world k.
Proof.
  revert k. induction os as [|o os IH]; intros k Hk Hq; [done|]. cbn.
  assert (worker_step o k = mkWorker (world k) InBrpop false) as ->.
  { destruct Hk as [Hpc Hf]. unfold worker_step, brpop_then_process.
    rewrite Hq, Hf. cbn. destruct (pc k); congruence. }
  by rewrite IH.
Qed.

(** X10. The loop always runs out of work: every delivery uses up a queue
    entry or one of the retries the table still allows, so after at most
    as many iterations as there are entries plus retries left the work
    queue is empty, whatever the handlers and the environment do. No job is
    retried for ever. *)
Theorem worker_drains_the_queue (os : list Oracle) (k : Worker) :
  polling k →
  (length (job_queue (world k)) + budget (jobs (world k)) ≤ length os)%nat →
  job_queue (world (run os k)) = [].
Proof.
  revert k. induction os as [|o os IH]; intros k Hk Hlen.
  - cbn in *. apply length_zero_iff_nil. lia.
  - destruct (rpop (job_queue (world k))) as [[x q]|] eqn:Hq.
    + cbn. rewrite (worker_step_pops o k x q Hk Hq).
      destruct (process_delivery o x (with_queue q (world k))) as (w' & Hp & Hd).
      rewrite Hp. apply IH; [by split|]. cbn [world snd].
      pose proof (delivery_measure o x q (world k) w' Hd) as Hm.
      apply rpop_Some in Hq. rewrite Hq, length_app in Hlen. cbn in Hlen. lia.
    + apply rpop_None in Hq. by rewrite run_on_empty_queue.
Qed.

Lemma worker_drains_the_queue_witness :
  let j := sample_job "csv-generation" just_fail pending 0 in
  let k := mkWorker (mkWorld {[ "j1" := j ]} ["j0"; "j1"; "j2"] [] ∅ [])
                    AtLoopHead false in
  polling k ∧
  (length (job_queue (world k)) + budget (jobs (world k)) ≤ 4)%nat ∧
  job_queue (world (run (replicate 4 sample_oracle) k)) = [].
Proof.
  intros j k.
  assert (polling k) as Hk by (split; [discriminate|reflexivity]).
  assert (length (job_queue (world k)) + budget (jobs (world k)) ≤ 4)%nat as Hlen
    by (vm_compute; lia).
  split; [exact Hk|]. split; [exact Hlen|].
  apply (worker_drains_the_queue (replicate 4 sample_oracle) k Hk). exact Hlen.
Defined.

(** ** Further properties: a job whose handler succeeds *)

Lemma csv_handler_completes (o : Oracle) (ty : string) (p : json)
    (row0 : json) (rest : list json) (csv : string) :
  is_csv_type ty = true → payload_fail p = false →
  get_prop p "data" = Ok (Some (JArr (row0 :: rest))) →
  build_csv (row0 :: rest) = Ok csv →
  handler_completes o ty p.
Proof.
  intros Hc Hf Hd Hb jobId job w Hty Hp. subst ty p.
  rewrite (execute_csv o jobId w job row0 rest csv Hc Hf Hd Hb).
  eexists _, _, _. split; [|reflexivity]. done.
Qed.





(** ** Further properties: the CSV text *)

Lemma string_app_cons (x : Ascii.ascii) (a b : string) :
  String x a +:+ b = String x (a +:+ b).
Proof. reflexivity. Qed.

Lemma string_app_assoc (a b c : string) : (a +:+ b) +:+ c = a +:+ b +:+ c.
Proof.
  induction a as [|x a IH]; [done|]. rewrite !string_app_cons. by rewrite IH.
Qed.

Lemma string_app_nil_r (a : string) : a +:+ "" = a.
Proof.
  induction a as [|x a IH]; [done|]. rewrite string_app_cons. by rewrite IH.
Qed.

Lemma json_null_or_not (v : json) : v = JNull ∨ v ≠ JNull.
Proof. destruct v; by auto. Qed.

(** Conversion to text throws on the unconvertible values and on no
    other. *)
Lemma js_ToString_unconvertible (v : json) :
  if unconvertible v
  then js_ToString v = Throw "Cannot convert object to primitive value"
  else ∃ t, js_ToString v = Ok t.
Proof.
  revert v. fix IH 1. intros [|[]|n|s|l|kv]; cbn; eauto.
  - assert (if existsb unconvertible l
            then ∃ m, m = "Cannot convert object to primitive value" ∧
                 (fix items (l : list json) : Res (list string) :=
                    match l with
                    | [] => Ok []
                    | x :: rest =>
                        res_bind (match x with JNull => Ok "" | _ => js_ToString x end)
                          (λ t, res_bind (items rest) (λ ts, Ok (t :: ts)))
                    end) l = Throw m
            else ∃ ts,
                 (fix items (l : list json) : Res (list string) :=
                    match l with
                    | [] => Ok []
                    | x :: rest =>
                        res_bind (match x with JNull => Ok "" | _ => js_ToString x end)
                          (λ t, res_bind (items rest) (λ ts, Ok (t :: ts)))
                    end) l = Ok ts) as H.
    { revert l. fix IHl 1. intros [|x l]; [cbn; eauto|].
      specialize (IH x). specialize (IHl l). cbn [existsb].
      destruct (unconvertible x); cbn [orb].
      - eexists; split; [reflexivity|]. destruct x; try discriminate IH; by rewrite IH.
      - destruct IH as [t Ht].
        assert (∃ t', match x with JNull => Ok "" | _ => js_ToString x end = Ok t')
          as [t' Ht'] by (destruct x; eauto).
        rewrite Ht'. cbn [res_bind].
        destruct (existsb unconvertible l).
        + destruct IHl as (m & -> & ->). eauto.
        + destruct IHl as (ts & ->). eauto. }
    destruct (existsb unconvertible l).
    + by destruct H as (m & -> & ->).
    + destruct H as (ts & ->). cbn. eauto.
  - destruct (assoc "toString" kv); eauto.
Qed.

Lemma cell_text_ok (c : option json) :
  match c with Some v => unconvertible v = false | None => True end →
  ∃ t, cell_text c = Ok t.
Proof.
  destruct c as [v|]; [|cbn; eauto]. intros Hv.
  pose proof (js_ToString_unconvertible v) as H. rewrite Hv in H.
  destruct v; cbn; eauto.
Qed.

Lemma cell_text_throws (v : json) :
  unconvertible v = true → ∃ m, cell_text (Some v) = Throw m.
Proof.
  intros Hv. pose proof (js_ToString_unconvertible v) as H. rewrite Hv in H.
  destruct v; try discriminate Hv; cbn; eauto.
Qed.

(** The cells of a row join into a line exactly when none of them is
    unconvertible. *)
Lemma join_cells_ok (cells : list (option json)) :
  (∃ line, join_cells cells = Ok line) ↔
  forallb (λ c, match c with Some v => negb (unconvertible v) | None => true end)
          cells = true.
Proof.
  unfold join_cells.
  assert ((∃ ts, cell_texts cells = Ok ts) ↔
          forallb (λ c, match c with Some v => negb (unconvertible v) | None => true end)
                  cells = true) as <-.
  { induction cells as [|c cells IH]; cbn [cell_texts forallb].
    - split; eauto.
    - rewrite andb_true_iff, <- IH. split.
      + intros [ts Hts]. destruct c as [v|].
        * destruct (unconvertible v) eqn:Hv.
          -- destruct (cell_text_throws v Hv) as [m Hm]. by rewrite Hm in Hts.
          -- split; [done|]. destruct (cell_text (Some v)); [|done].
             cbn in Hts. destruct (cell_texts cells); [eauto|done].
        * split; [done|]. cbn in Hts. destruct (cell_texts cells); [eauto|done].
      + intros [Hc [ts Hts]].
        destruct (cell_text_ok c) as [t Ht].
        { destruct c as [v|]; [|done]. by apply negb_true_iff. }
        rewrite Ht, Hts. cbn. eauto. }
  split.
  - intros [line H]. destruct (cell_texts cells); [eauto|done].
  - intros [ts ->]. cbn. eauto.
Qed.

Lemma map_row_ok (row : json) (headers : list string) :
  headers = [] ∨ row ≠ JNull →
  map_row row headers = Ok (map (get_prop_opt row) headers).
Proof.
  intros [->|Hrow]; [done|].
  induction headers as [|h hs IH]; [done|]. cbn. rewrite IH. cbn.
  unfold get_prop_opt. by destruct row.
Qed.

Lemma map_row_throws (row : json) (headers : list string) :
  headers ≠ [] → row = JNull → ∃ m, map_row row headers = Throw m.
Proof. intros Hh ->. destruct headers as [|h hs]; [done|]. cbn. by eexists. Qed.

Lemma forallb_over_map {A B} (f : A → B) (p : B → bool) (l : list A) :
  forallb p (map f l) = forallb (λ x, p (f x)) l.
Proof. induction l as [|x l IH]; [done|]. cbn. by rewrite IH. Qed.

(** One pass of the loop body appends a line exactly when the row
    renders. *)
Lemma row_line_ok (headers : list string) (row : json) :
  headers ≠ [] →
  (∃ line, res_bind (map_row row headers) join_cells = Ok line) ↔
  row_renders headers row = true.
Proof.
  intros Hh. destruct (json_null_or_not row) as [->|Hrow].
  - destruct (map_row_throws JNull headers Hh eq_refl) as [m ->]. cbn.
    split; [by intros [? ?]|done].
  - rewrite map_row_ok by (by right). cbn [res_bind]. rewrite join_cells_ok.
    rewrite forallb_over_map.
    assert (row_renders headers row =
            forallb (λ h, match get_prop_opt row h with
                          | Some v => negb (unconvertible v)
                          | None => true
                          end) headers) as -> by (by destruct row).
    done.
Qed.

Lemma csv_rows_cons (headers : list string) (row : json) (rest : list json)
    (csv : string) :
  csv_rows headers (row :: rest) csv =
    res_bind (res_bind (map_row row headers) join_cells) (λ line,
    csv_rows headers rest (csv +:+ line +:+ newline)).
Proof. cbn. by destruct (map_row row headers). Qed.

Lemma csv_rows_ok (headers : list string) (rows : list json) (csv : string) :
  (∃ out, csv_rows headers rows csv = Ok out) ↔
  headers = [] ∨ forallb (row_renders headers) rows = true.
Proof.
  destruct (decide (headers = [])) as [->|Hh].
  { split; [by left|intros _]. revert csv.
    induction rows as [|row rows IH]; intros csv; cbn; eauto. }
  revert csv. induction rows as [|row rows IH]; intros csv.
  - cbn. split; [by right|eauto].
  - rewrite csv_rows_cons. cbn [forallb].
    pose proof (row_line_ok headers row Hh) as Hrow.
    destruct (res_bind (map_row row headers) join_cells) as [line|m].
    + assert (row_renders headers row = true) as -> by (apply Hrow; eauto).
      cbn [res_bind andb]. apply IH.
    + assert (row_renders headers row = false) as ->.
      { destruct (row_renders headers row); [|done].
        destruct Hrow as [_ H]. by destruct H. }
      cbn. split; [by intros [? ?]|by intros [?|?]].
Qed.

Lemma Object_keys_ok (v : json) : v ≠ JNull → ∃ headers, Object_keys v = Ok headers.
Proof. destruct v; cbn; by eauto. Qed.

(** The cells of a table row are the scalar texts. *)
Lemma table_row_line (headers hs : list string) (row : json) :
  table_row headers row = true → hs ⊆ headers →
  res_bind (map_row row hs) join_cells =
    Ok (String.concat "," (map (λ h, scalar_text (get_prop_opt row h)) hs)).
Proof.
  destruct row as [| | | | |kv]; try discriminate. cbn [table_row].
  intros Ht Hsub. rewrite map_row_ok by (by right). cbn [res_bind].
  unfold join_cells.
  assert (cell_texts (map (get_prop_opt (JObj kv)) hs) =
          Ok (map (λ h, scalar_text (get_prop_opt (JObj kv) h)) hs)) as ->; [|done].
  induction hs as [|h hs IH]; [done|]. cbn [map cell_texts].
  rewrite IH by (intros x Hx; apply Hsub; by apply elem_of_cons; right).
  assert (cell_text (get_prop_opt (JObj kv) h) =
          Ok (scalar_text (get_prop_opt (JObj kv) h))) as ->; [|done].
  assert (h ∈ headers) as Hh by (apply Hsub; by apply elem_of_cons; left).
  rewrite forallb_forall in Ht. specialize (Ht h).
  rewrite <- list_elem_of_In in Ht. specialize (Ht Hh).
  unfold get_prop_opt. cbn. destruct (assoc h kv) as [[|[]| | | |]|]; done.
Qed.

Lemma csv_rows_table (headers : list string) (rows : list json) (csv : string) :
  forallb (table_row headers) rows = true →
  csv_rows headers rows csv = Ok (csv +:+ lines_text (map (csv_line headers) rows)).
Proof.
  revert csv. induction rows as [|row rows IH]; intros csv.
  - intros _. cbn. by rewrite string_app_nil_r.
  - cbn [forallb]. intros [Hrow Hrows]%andb_true_iff.
    rewrite csv_rows_cons, (table_row_line headers headers row Hrow) by done.
    cbn [res_bind]. rewrite IH by done.
    cbn [map lines_text foldr]. unfold csv_line. by rewrite !string_app_assoc.
Qed.

(** X12. For a table, that is rows that are JSON objects whose values under
    the keys of the first row are strings, booleans, safe integers or
    [null], and keys that are not names every object inherits, the CSV text
    is one header line, the keys of the first row joined by commas, followed
    by one line per row in the order of the array; each line has one cell
    per header, empty for a key the row lacks or holds as [null], and keys
    that only later rows have are ignored. *)
Theorem build_csv_is_header_then_rows (row0 : json) (rest : list json)
    (headers : list string) :
  Object_keys row0 = Ok headers →
  own_names_only headers = true →
  forallb (table_row headers) (row0 :: rest) = true →
  build_csv (row0 :: rest) =
    Ok (lines_text ((String.concat "," headers +:+ newline)
                      :: map (csv_line headers) (row0 :: rest))).
Proof.
  intros Hk _ Hrows. unfold build_csv. rewrite Hk. cbn [res_bind].
  by rewrite csv_rows_table.
Qed.

Lemma build_csv_is_header_then_rows_witness :
  Object_keys (JObj [("name", JStr "Alice"); ("score", JNum 95)])
    = Ok ["name"; "score"] ∧
  own_names_only ["name"; "score"] = true ∧
  forallb (table_row ["name"; "score"]) two_rows = true ∧
  build_csv two_rows =
    Ok ("name,score" +:+ newline +:+ "Alice,95" +:+ newline +:+ ",-3" +:+ newline).
Proof.
  split; [reflexivity|]. split; [reflexivity|]. split; [reflexivity|].
  apply (build_csv_is_header_then_rows
           (JObj [("name", JStr "Alice"); ("score", JNum 95)])
           [JObj [("extra", JBool true); ("score", JNum (-3))]]
           ["name"; "score"]); reflexivity.
Defined.

(** X13. Building the CSV text from a non-empty array throws exactly when
    the first row is [null], or the first row has at least one key and some
    row does not render: the row is [null], or a cell it holds under one of
    those keys is an object with an own key [toString], by itself or inside
    arrays. Every other array renders; in particular rows of any shape do
    when the first row has no key. *)
Theorem build_csv_throws_only_on_unrenderable_rows (row0 : json) (rest : list json) :
  (∃ csv, build_csv (row0 :: rest) = Ok csv) ↔
  ∃ headers, Object_keys row0 = Ok headers ∧
    (headers = [] ∨ forallb (row_renders headers) (row0 :: rest) = true).
Proof.
  unfold build_csv. split.
  - intros [csv Hb].
    destruct (Object_keys row0) as [headers|m]; [|discriminate Hb].
    exists headers. split; [done|]. cbn [res_bind] in Hb.
    apply (csv_rows_ok headers (row0 :: rest) (String.concat "," headers +:+ newline)).
    eauto.
  - intros (headers & -> & Hrows). cbn [res_bind]. by apply csv_rows_ok.
Qed.

(** ** Further properties: e-mail jobs *)

Lemma execute_email (o : Oracle) (jobId : string) (w : World) (j : Job) :
  is_email_type (job_type j) = true → payload_fail (payload j) = false →
  payload j ≠ JNull →
  execute o jobId j w =
    match sendMail o with
    | Ok mid =>
        (Ok tt, completed_world o jobId (email_result mid) (files w)
                  (email_sent jobId (get_prop_opt (payload j) "to") mid) w)
    | Throw m => (Throw m, w)
    end.
Proof.
  intros He Hf Hp.
  assert (is_csv_type (job_type j) = false) as Hc.
  { destruct (is_csv_type (job_type j)) eqn:E; [|done].
    by rewrite (csv_not_email _ E) in He. }
  unfold execute, when, email_handler, mbind, M_bind, mret, M_ret, lift,
    finalize_success, query_update, log, get_prop_opt.
  rewrite Hf, Hc, He.
  assert (∀ key, ∃ v, get_prop (payload j) key = Ok v) as Hget.
  { intros key. destruct (payload j); cbn; by eauto. }
  destruct (Hget "to") as [to ->]. destruct (Hget "subject") as [? ->].
  destruct (Hget "body") as [? ->]. by destruct (sendMail o).
Qed.

(** X16. A delivered [EMAIL_SEND] job whose row is not [completed], whose
    payload carries no [fail] flag and is not JSON [null]: the transport
    alone decides the attempt. If [sendMail] returns a message id the row
    is [completed] with result [{messageId: ...}] and nothing is pushed; if
    it throws, the message is logged as the failure and one attempt is
    counted. Reading [to], [subject] and [body] does not throw on such a
    payload. *)
Theorem email_attempt_follows_transport (o : Oracle) (k : Worker)
    (jobId : string) (q : list string) (j : Job) :
  polling k →
  rpop (job_queue (world k)) = Some (jobId, q) →
  jobs (world k) !! jobId = Some j → status j ≠ completed →
  is_email_type (job_type j) = true → payload_fail (payload j) = false →
  payload j ≠ JNull →
  match sendMail o with
  | Ok mid =>
      jobs (world (worker_step o k)) !! jobId =
        Some (set_status_result_now completed (email_result mid) (now_done o)
                (set_status_now processing (now_claim o) j)) ∧
      job_queue (world (worker_step o k)) = q ∧
      job_dlq (world (worker_step o k)) = job_dlq (world k)
  | Throw m =>
      job_failed jobId (job_type j) (attempts j + 1) m
        ∈ console (world (worker_step o k)) ∧
      attempts <$> jobs (world (worker_step o k)) !! jobId = Some (attempts j + 1)
  end.
Proof.
  intros Hk Hq Hj Hs He Hf Hp.
  rewrite (worker_step_pops o k jobId q Hk Hq). cbn [world].
  pose proof (execute_email o jobId (claimed_world o jobId j (with_queue q (world k)))
                j He Hf Hp) as Hx.
  destruct (sendMail o) as [mid|m].
  - rewrite (process_handler_returned o jobId (with_queue q (world k)) j Hj Hs)
      by (by rewrite Hx).
    rewrite Hx. cbn. unfold sql_update. by rewrite !lookup_alter_eq, Hj.
  - rewrite (process_handler_threw o jobId (with_queue q (world k)) j m Hj Hs)
      by (by rewrite Hx).
    cbn [snd]. case_bool_decide; unfold requeued_world, dead_lettered_world;
      cbn [jobs console];
      (split; [apply elem_of_app; right; apply elem_of_cons; by left|]);
      unfold sql_update at 1; rewrite lookup_alter_eq;
      by rewrite claimed_world_row.
Qed.

Lemma email_attempt_follows_transport_witness :
  let k := mkWorker (sample_world sample_email_job ["j1"] ∅) AtLoopHead false in
  polling k ∧
  jobs (world (worker_step sample_oracle k)) !! "j1" =
    Some (mkJob "j1" "EMAIL_SEND" completed mail_payload
                (Some (email_result "<m1@test.com>")) None 0 3 11) ∧
  job_queue (world (worker_step sample_oracle k)) = [] ∧
  job_dlq (world (worker_step sample_oracle k)) = [].
Proof.
  intros k.
  assert (polling k) as Hk by (split; [discriminate|reflexivity]).
  split; [exact Hk|].
  apply (email_attempt_follows_transport sample_oracle k "j1" [] sample_email_job Hk);
    try reflexivity; discriminate.
Defined.

(** ** Further properties: order of service and time stamps *)

(** X17. First in, first out: while entries remain to the right of an id in
    the work queue, the worker serves those and leaves the job alone; its
    row, its dead-letter entries and its logged failures are untouched and
    the id is still queued, whatever happens to the jobs served before
    it. *)
Theorem job_waits_for_entries_to_its_right (k : Worker) (jobId : string)
    (q1 q2 : list string) (os : list Oracle) :
  polling k →
  job_queue (world k) = q1 ++ jobId :: q2 → jobId ∉ q2 →
  (length os ≤ length q2)%nat →
  untouched jobId k (run os k) ∧ jobId ∈ job_queue (world (run os k)).
Proof.
  intros Hk Hq Hn Hlen.
  assert (q2 = take (length q2 - length os) q2 ++ drop (length q2 - length os) q2)
    as Hsplit by (by rewrite take_drop).
  set (qa := take (length q2 - length os) q2) in *.
  set (seg := drop (length q2 - length os) q2) in *.
  assert (length os = length seg) as Hseg.
  { unfold seg. rewrite length_drop. lia. }
  assert (jobId ∉ seg) as Hnseg.
  { intros Hin. apply Hn. rewrite Hsplit. apply elem_of_app. by right. }
  destruct (run_others jobId seg (q1 ++ jobId :: qa) os k Hk Hseg Hnseg)
    as (r & _ & Hqr & _ & _ & Hu).
  { rewrite Hq, Hsplit at 1. by rewrite <- !app_assoc. }
  split; [done|]. rewrite Hqr.
  apply elem_of_app. right. apply elem_of_app. right. by apply elem_of_cons; left.
Qed.

Lemma job_waits_for_entries_to_its_right_witness :
  let j := sample_job "csv-generation" one_row pending 0 in
  let k := mkWorker (mkWorld {[ "j1" := j ]} ["j1"; "j2"; "j3"] [] ∅ [])
                    AtLoopHead false in
  polling k ∧
  untouched "j1" k (run [sample_oracle; sample_oracle] k) ∧
  "j1" ∈ job_queue (world (run [sample_oracle; sample_oracle] k)).
Proof.
  intros j k.
  assert (polling k) as Hk by (split; [discriminate|reflexivity]).
  split; [exact Hk|].
  apply (job_waits_for_entries_to_its_right k "j1" [] ["j2"; "j3"]
           [sample_oracle; sample_oracle] Hk).
  - reflexivity.
  - intros H. apply elem_of_cons in H as [H|H]; [discriminate H|].
    apply list_elem_of_singleton in H. discriminate H.
  - cbn. lia.
Defined.

(** X18. Time stamps of a delivered row: [created_at] is never written, and
    [updated_at] is the time of the claim unless a handler stored a
    result, in which case it is the time of that update. The updates that
    record a failed attempt do not refresh [updated_at]. *)
Theorem updated_at_after_delivery (o : Oracle) (k : Worker) (jobId : string)
    (q : list string) (j : Job) :
  polling k →
  rpop (job_queue (world k)) = Some (jobId, q) →
  jobs (world k) !! jobId = Some j → status j ≠ completed →
  ∃ j', jobs (world (worker_step o k)) !! jobId = Some j' ∧
        created_at j' = created_at j ∧
        updated_at j' = if decide (status j' = completed) then now_done o
                        else now_claim o.
Proof.
  intros Hk Hq Hj Hs. rewrite (worker_step_pops o k jobId q Hk Hq). cbn [world].
  destruct (process_delivery o jobId (with_queue q (world k))) as (w' & -> & Hd).
  cbn [snd].
  destruct Hd as [Hn|job Hjob Hc|job Hjob _ _ _ _|job r fs ev Hjob _ _ _
                 |job m Hjob _ Ha|job m Hjob _ Ha]; cbn in *;
    try congruence; unfold sql_update; rewrite ?lookup_alter_eq, Hjob;
    assert (job = j) as -> by congruence; cbn; eexists; (split; [done|]); done.
Qed.

Lemma updated_at_after_delivery_witness :
  let j := sample_job "csv-generation" just_fail pending 0 in
  let k := mkWorker (sample_world j ["j1"] ∅) AtLoopHead false in
  polling k ∧
  ∃ j', jobs (world (worker_step sample_oracle k)) !! "j1" = Some j' ∧
        created_at j' = 0 ∧
        updated_at j' = if decide (status j' = completed) then 11 else 10.
Proof.
  intros j k.
  assert (polling k) as Hk by (split; [discriminate|reflexivity]).
  split; [exact Hk|].
  apply (updated_at_after_delivery sample_oracle k "j1" [] j Hk);
    [reflexivity|reflexivity|discriminate].
Defined.

Lemma run_after_exit (os : list Oracle) (k : Worker) : pc k = Exited → run os k = k.
Proof.
  intros Hpc. induction os as [|o os IH]; [done|].
  cbn. unfold worker_step. by rewrite Hpc.
Qed.

Lemma delivery_queue (o : Oracle) (x : string) (w w' : World) :
  delivery o x w w' → job_queue w' = job_queue w ∨ job_queue w' = x :: job_queue w.
Proof. destruct 1; cbn; by auto. Qed.

(** With the flag set, a worker at the top of the loop exits and pops
    nothing. *)
Lemma worker_step_exits (o : Oracle) (k : Worker) :
  shuttingDown k = true → pc k ≠ InBrpop →
  pc (worker_step o k) = Exited ∧
  job_queue (world (worker_step o k)) = job_queue (world k).
Proof.
  intros Hf Hpc. unfold worker_step. rewrite Hf.
  destruct (pc k) eqn:E; [done|congruence|by rewrite E].
Qed.

(** X19. Shutdown with work at hand: when the signal arrives and the worker
    is not waiting on an empty queue, it exits within two steps, having
    served at most one more entry, and nothing it is given afterwards makes
    it run again. *)
Theorem shutdown_completes_unless_idle (o1 o2 : Oracle) (k : Worker) :
  pc k ≠ Exited →
  (pc k = InBrpop → job_queue (world k) ≠ []) →
  pc (run [o1; o2] (signal k)) = Exited ∧
  (length (job_queue (world k)) ≤
     S (length (job_queue (world (run [o1; o2] (signal k))))))%nat ∧
  (∀ os, run os (run [o1; o2] (signal k)) = run [o1; o2] (signal k)).
Proof.
  intros Hpc Hidle.
  assert (shuttingDown (signal k) = true ∧ pc (signal k) = pc k ∧
          job_queue (world (signal k)) = job_queue (world k)) as (Hf & Hp & Hq).
  { unfold signal. by destruct (pc k). }
  assert (pc (run [o1; o2] (signal k)) = Exited ∧
          (length (job_queue (world k)) ≤
             S (length (job_queue (world (run [o1; o2] (signal k))))))%nat) as [H1 H2].
  { cbn [run]. destruct (pc k) eqn:E; [| |done].
    - destruct (worker_step_exits o1 (signal k) Hf) as [He Hqe]; [congruence|].
      destruct (worker_step_exits o2 (worker_step o1 (signal k))) as [He2 Hqe2].
      + unfold worker_step. by rewrite Hf, Hp.
      + congruence.
      + split; [done|]. rewrite Hqe2, Hqe, Hq. lia.
    - destruct (rpop (job_queue (world (signal k)))) as [[x q]|] eqn:Hpop.
      + assert (worker_step o1 (signal k) =
                mkWorker (snd (process o1 x (with_queue q (world (signal k)))))
                         AtLoopHead true) as Hstep.
        { unfold worker_step, brpop_then_process. by rewrite Hp, Hpop, Hf. }
        destruct (worker_step_exits o2 (worker_step o1 (signal k))) as [He2 Hqe2];
          [by rewrite Hstep|rewrite Hstep; discriminate|].
        split; [done|]. rewrite Hqe2, Hstep. cbn [world].
        destruct (process_delivery o1 x (with_queue q (world (signal k))))
          as (w' & -> & Hd).
        apply rpop_Some in Hpop. rewrite <- Hq, Hpop, length_app. cbn.
        destruct (delivery_queue o1 x _ _ Hd) as [-> | ->]; cbn; lia.
      + apply rpop_None in Hpop. rewrite Hq in Hpop. by destruct Hidle. }
  split; [done|]. split; [done|]. intros os. by apply run_after_exit.
Qed.

Lemma shutdown_completes_unless_idle_witness :
  let j := sample_job "csv-generation" one_row pending 0 in
  let k := mkWorker (sample_world j ["j2"; "j1"] ∅) InBrpop false in
  pc k ≠ Exited ∧
  pc (run [sample_oracle; sample_oracle] (signal k)) = Exited ∧
  (length (job_queue (world k)) ≤
     S (length (job_queue (world (run [sample_oracle; sample_oracle] (signal k))))))%nat.
Proof.
  intros j k.
  assert (pc k ≠ Exited) as Hpc by discriminate.
  split; [exact Hpc|].
  destruct (shutdown_completes_unless_idle sample_oracle sample_oracle k Hpc)
    as (H1 & H2 & _); [discriminate|].
  split; [exact H1|exact H2].
Defined.
